(** * A shallow embedding of [data_aggregator.py] (class [TimeSeriesAggregator])

    The development follows the file top to bottom:
    - [PyStr]: the string primitives the program calls ([str.lower],
      [re.sub], [in], [str.replace], [str.rsplit], [str.strip]);
    - [Frame]: cells, tables and the keyed outer join of [pd.merge];
    - [Aggregator]: the methods of [TimeSeriesAggregator], each under its
      own name, with state passed explicitly;
    - [Unicode]: [normalize_col_name] on strings of arbitrary code
      points.

    Python strings are modelled by [string], a character being its code
    point below 256, and in [Unicode] by the list of their code points;
    timestamps by [option Z] (epoch milliseconds, [None] for [NaT]);
    numeric readings by [option Z] ([None] for [NaN]). *)

From Stdlib Require Import Bool List String Ascii ZArith NArith Lia PeanoNat.
From Stdlib Require Import Permutation DecimalString.
Import ListNotations.
Local Open Scope string_scope.
Local Open Scope list_scope.

(* ================================================================== *)
(** ** Python string primitives *)
(* ================================================================== *)

Module PyStr.

Definition code (c : ascii) : N := N_of_ascii c.

(** [a-z], the character class of the regular expression. *)
Definition is_az (c : ascii) : bool :=
  ((97 <=? code c) && (code c <=? 122))%N.

(** [A-Z]. *)
Definition is_AZ (c : ascii) : bool :=
  ((65 <=? code c) && (code c <=? 90))%N.

(** The upper-case letters of Latin-1 above ASCII: U+00C0 .. U+00DE
    without the multiplication sign U+00D7. *)
Definition is_latin1_upper (c : ascii) : bool :=
  ((192 <=? code c) && (code c <=? 222) && negb (code c =? 215))%N.

(** [str.lower] on one character below 256 ([Unicode.lower_char] has the
    characters beyond). *)
Definition lower_char (c : ascii) : ascii :=
  if is_AZ c || is_latin1_upper c then ascii_of_N (code c + 32) else c.

(** [str.lower]. *)
Fixpoint lower (s : string) : string :=
  match s with
  | EmptyString => EmptyString
  | String c s' => String (lower_char c) (lower s')
  end.

(** [re.sub(r"[^a-z]+", "", s)]: every maximal run of characters outside
    [a-z] is replaced by the empty string, so exactly the characters of
    [a-z] stay, in order. *)
Fixpoint re_sub_non_az (s : string) : string :=
  match s with
  | EmptyString => EmptyString
  | String c s' =>
      if is_az c then String c (re_sub_non_az s') else re_sub_non_az s'
  end.

(** [String.prefix p s]: [s.startswith(p)]. *)
Fixpoint starts_with (p s : string) : bool :=
  match p, s with
  | EmptyString, _ => true
  | String a p', String b s' => Ascii.eqb a b && starts_with p' s'
  | String _ _, EmptyString => false
  end.

(** [sub in s]: substring containment. *)
Fixpoint contains (sub s : string) : bool :=
  starts_with sub s ||
  match s with
  | EmptyString => false
  | String _ s' => contains sub s'
  end.

(** [s[n:]]. *)
Fixpoint drop (n : nat) (s : string) : string :=
  match n, s with
  | O, _ => s
  | S n', String _ s' => drop n' s'
  | S _, EmptyString => EmptyString
  end.

(** [s.replace(old, "")] for a non-empty [old]: left to right,
    non-overlapping.  [fuel] bounds the number of characters still to be
    read and is always given as the length of the input. *)
Fixpoint remove_all_fuel (fuel : nat) (old s : string) : string :=
  match fuel with
  | O => EmptyString
  | S fuel' =>
      match s with
      | EmptyString => EmptyString
      | String c s' =>
          if starts_with old s
          then remove_all_fuel fuel' old (drop (String.length old) s)
          else String c (remove_all_fuel fuel' old s')
      end
  end.

Definition remove_all (old s : string) : string :=
  remove_all_fuel (String.length s) old s.

(** [s.rsplit(sep, 1)[0]] for a one-character [sep]: the text before the
    last occurrence of [sep], or all of [s] when [sep] does not occur.
    The auxiliary function returns [None] when no separator is found. *)
Fixpoint before_last (sep : ascii) (s : string) : option string :=
  match s with
  | EmptyString => None
  | String c s' =>
      match before_last sep s' with
      | Some h => Some (String c h)
      | None => if Ascii.eqb c sep then Some EmptyString else None
      end
  end.

Definition rsplit1_head (sep : ascii) (s : string) : string :=
  match before_last sep s with
  | Some h => h
  | None => s
  end.

(** [str.isspace] on one character below 256. *)
Definition is_space (c : ascii) : bool :=
  (((9 <=? code c) && (code c <=? 13))
   || ((28 <=? code c) && (code c <=? 32))
   || (code c =? 133) || (code c =? 160))%N.

Fixpoint lstrip (s : string) : string :=
  match s with
  | EmptyString => EmptyString
  | String c s' => if is_space c then lstrip s' else s
  end.

Fixpoint rstrip (s : string) : string :=
  match s with
  | EmptyString => EmptyString
  | String c s' =>
      match rstrip s' with
      | EmptyString => if is_space c then EmptyString else String c EmptyString
      | r => String c r
      end
  end.

(** [str.strip()]. *)
Definition strip (s : string) : string := rstrip (lstrip s).

End PyStr.

(* ================================================================== *)
(** ** Tables and the outer join of [pd.merge] *)
(* ================================================================== *)

Module Frame.

(** A cell as [pd.read_excel] delivers it. *)
Inductive Cell : Type :=
| Number (z : Z)
| Text (s : string)
| Stamp (ms : Z)
| Null.

(** A parsed [Date Time] value: epoch milliseconds, [None] for [NaT]. *)
Definition Timestamp : Type := option Z.

(** A row: the [Date Time] key and the other cells, aligned with the
    table's column names. *)
Definition Row : Type := (Timestamp * list Cell)%type.

(** A data frame with its [Date Time] column kept apart; [columns] names
    the other columns in order. *)
Record Table : Type := mkTable {
  columns : list string;
  rows : list Row
}.

Definition keys (t : Table) : list Timestamp := map fst (rows t).

Definition key_eqb (a b : Timestamp) : bool :=
  match a, b with
  | Some x, Some y => (x =? y)%Z
  | None, None => true
  | _, _ => false
  end.

(** The order in which an outer merge lists its keys: [NaT] first, the
    others ascending. *)
Definition key_ltb (a b : Timestamp) : bool :=
  match a, b with
  | Some x, Some y => (x <? y)%Z
  | None, Some _ => true
  | _, None => false
  end.

Fixpoint insert_key (k : Timestamp) (l : list Timestamp) : list Timestamp :=
  match l with
  | [] => [k]
  | h :: t =>
      if key_eqb k h then l
      else if key_ltb k h then k :: l
      else h :: insert_key k t
  end.

(** The distinct keys of a list, sorted. *)
Definition sorted_keys (l : list Timestamp) : list Timestamp :=
  fold_right insert_key [] l.

Definition rows_with (k : Timestamp) (rs : list Row) : list Row :=
  filter (fun r => key_eqb (fst r) k) rs.

Definition nulls (n : nat) : list Cell := repeat Null n.

(** The rows an outer join produces for the key [k]: the product of the
    rows of both sides carrying [k], a side without such a row being
    filled with nulls. *)
Definition join_key (l r : Table) (k : Timestamp) : list Row :=
  match rows_with k (rows l), rows_with k (rows r) with
  | [], rr => map (fun y => (k, nulls (List.length (columns l)) ++ snd y)) rr
  | ll, [] => map (fun x => (k, snd x ++ nulls (List.length (columns r)))) ll
  | ll, rr => flat_map (fun x => map (fun y => (k, snd x ++ snd y)) rr) ll
  end.

Definition mem (c : string) (l : list string) : bool :=
  existsb (String.eqb c) l.

(** Column names present on both sides receive the suffixes of
    [pd.merge] ([_x] on the left, [_y] on the right). *)
Definition suffix_overlap (sfx : string) (mine other : list string)
  : list string :=
  map (fun c => if mem c other then (c ++ sfx)%string else c) mine.

(** [pd.merge(l, r, on="Date Time", how="outer")]. *)
Definition merge_outer (l r : Table) : Table :=
  {| columns := suffix_overlap "_x" (columns l) (columns r)
                ++ suffix_overlap "_y" (columns r) (columns l);
     rows := flat_map (join_key l r) (sorted_keys (keys l ++ keys r)) |}.

(** The cell of a row under a column name (the first column so named). *)
Fixpoint row_get (cols : list string) (cells : list Cell) (c : string)
  : option Cell :=
  match cols, cells with
  | c' :: cols', v :: cells' =>
      if String.eqb c c' then Some v else row_get cols' cells' c
  | _, _ => None
  end.

(** Every row has one cell per column. *)
Definition rectangular (t : Table) : Prop :=
  Forall (fun r : Row => List.length (snd r) = List.length (columns t)) (rows t).

End Frame.

(* ================================================================== *)
(** ** [TimeSeriesAggregator] *)
(* ================================================================== *)

Module Aggregator.
Import PyStr Frame.

(** *** Errors and the error monad *)

Inductive PyError : Type :=
| TypeError
| ValueError
| KeyError
| OutOfBoundsDatetime.

Inductive Result (A : Type) : Type :=
| Ok (a : A)
| Raise (e : PyError).
Arguments Ok {A} a.
Arguments Raise {A} e.

Definition bind {A B : Type} (m : Result A) (f : A -> Result B) : Result B :=
  match m with
  | Ok a => f a
  | Raise e => Raise e
  end.

Notation "x <- m ;; k" := (bind m (fun x => k))
  (at level 61, m at next level, right associativity).

(** What the methods print. *)
Inductive Printed : Type :=
| SkippingSheet (sheet : string)
| ColumnNotFound (req : string)
| RowsAfterTimeFilter (n : nat).

(** *** [normalize_col_name] *)

Definition normalize_col_name (col : string) : string :=
  let col := lower col in
  let col := re_sub_non_az col in
  col.

(** *** [col_map]: a [dict], which keeps its keys in insertion order *)

Definition Dict (V : Type) : Type := list (string * V).

(** [d[k] = v]: a key already present keeps its place. *)
Fixpoint dict_set {V : Type} (k : string) (v : V) (d : Dict V) : Dict V :=
  match d with
  | [] => [(k, v)]
  | (k', v') :: d' =>
      if String.eqb k k' then (k, v) :: d' else (k', v') :: dict_set k v d'
  end.

Definition ColMap : Type := Dict string.

(** The truth value of an [Optional[str]]. *)
Definition truthy_str (o : option string) : bool :=
  match o with
  | Some EmptyString => false
  | Some _ => true
  | None => false
  end.

(** [next((v for k, v in col_map.items() if norm_req in k), None)]. *)
Definition first_match (col_map : ColMap) (norm_req : string) : option string :=
  option_map snd (find (fun kv => contains norm_req (fst kv)) col_map).

(** [map_columns]: the mapped names and the warnings printed, both in the
    order of the requests. *)
Fixpoint map_columns (col_map : ColMap) (requested_cols : list string)
  : list string * list Printed :=
  match requested_cols with
  | [] => ([], [])
  | req :: rest =>
      let norm_req := normalize_col_name req in
      let mtch := first_match col_map norm_req in
      let '(mapped, printed) := map_columns col_map rest in
      if truthy_str mtch
      then (match mtch with Some v => v :: mapped | None => mapped end, printed)
      else (mapped, ColumnNotFound req :: printed)
  end.

(** *** [load_and_merge_excel] *)

(** A sheet of the workbook: its label, the names of its columns other
    than [Date Time], and its rows (the raw [Date Time] cell first). *)
Record Sheet : Type := mkSheet {
  sheet_name : string;
  sheet_columns : list string;
  sheet_rows : list (Cell * list Cell)
}.

Definition Workbook : Type := list Sheet.

(** [sheet.replace("Input ", "").rsplit("_", 1)[0].strip()]. *)
Definition device_name (sheet : string) : string :=
  strip (rsplit1_head "_"%char (remove_all "Input " sheet)).

(** [f"{device_name}_{col}"]. *)
Definition prefixed (device col : string) : string :=
  (device ++ "_" ++ col)%string.

(** [df.rename(columns={col: new}, inplace=True)]: every column named
    [col] is renamed. *)
Definition rename (col new : string) (cols : list string) : list string :=
  map (fun c => if String.eqb c col then new else c) cols.

(** The loop over [df.columns] (the names as they were when the loop
    started): [cols] are the current names of the frame. *)
Fixpoint rename_columns (device : string) (todo cols : list string)
  (col_map : ColMap) : list string * ColMap :=
  match todo with
  | [] => (cols, col_map)
  | col :: todo' =>
      let prefixed_col := prefixed device col in
      let norm_name := normalize_col_name prefixed_col in
      rename_columns device todo' (rename col prefixed_col cols)
        (dict_set norm_name prefixed_col col_map)
  end.

Record LoadState : Type := mkLoad {
  merged_df : option Table;
  count : nat;
  col_map : ColMap;
  printed : list Printed
}.

Section Loading.

(** [pd.to_datetime(_, errors="coerce")] on one cell: [None] when the
    cell does not parse. *)
Variable to_datetime : Cell -> option Z.

(** [pd.read_excel] followed by the conversion of [Date Time] and the
    renaming loop. *)
Definition read_sheet (sheet : Sheet) (cm : ColMap) : Table * ColMap :=
  let device := device_name (sheet_name sheet) in
  let df_rows := map (fun r => (to_datetime (fst r), snd r)) (sheet_rows sheet) in
  let '(cols, cm') :=
    rename_columns device (sheet_columns sheet) (sheet_columns sheet) cm in
  ({| columns := cols; rows := df_rows |}, cm').

(** One turn of the loop over [xls.sheet_names]. *)
Definition load_step (st : LoadState) (sheet : Sheet) : LoadState :=
  if Nat.eqb (count st) 2 then
    {| merged_df := merged_df st;
       count := count st;
       col_map := col_map st;
       printed := printed st ++ [SkippingSheet (sheet_name sheet)] |}
  else
    let '(df, cm) := read_sheet sheet (col_map st) in
    {| merged_df := match merged_df st with
                    | None => Some df
                    | Some m => Some (merge_outer m df)
                    end;
       count := S (count st);
       col_map := cm;
       printed := printed st |}.

Definition initial : LoadState :=
  {| merged_df := None; count := 0; col_map := []; printed := [] |}.

Definition load_and_merge_excel (wb : Workbook) : LoadState :=
  fold_left load_step wb initial.

(** *** [apply_time_filters] *)

(** The truth value of an [Optional[int]]. *)
Definition truthy_int (o : option Z) : bool :=
  match o with
  | Some z => negb (z =? 0)%Z
  | None => false
  end.

(** [ts >= bound] and [ts <= bound] on a series value; a comparison with
    [NaT] is false. *)
Definition time_geb (t : Timestamp) (b : Z) : bool :=
  match t with Some x => (b <=? x)%Z | None => false end.

Definition time_leb (t : Timestamp) (b : Z) : bool :=
  match t with Some x => (x <=? b)%Z | None => false end.

(** The bounds of a [pd.Timestamp] (64-bit nanoseconds) in milliseconds,
    and the integer that stands for [NaT]. *)
Definition ms_min : Z := (-9223372036854)%Z.
Definition ms_max : Z := 9223372036854%Z.
Definition nat_value : Z := (-9223372036854775808)%Z.

(** [pd.to_datetime(bound, unit="ms")] on an integer: [NaT] for the
    integer that stands for it, the instant when it can be held in
    nanoseconds, [OutOfBoundsDatetime] otherwise.  (Integers beyond 64
    bits are taken to raise as well; the statements on this error keep
    to 64-bit integers.) *)
Definition to_datetime_ms (bound : Z) : Result Timestamp :=
  if (bound =? nat_value)%Z then Ok None
  else if ((ms_min <=? bound) && (bound <=? ms_max))%Z then Ok (Some bound)
  else Raise OutOfBoundsDatetime.

(** [series >= ts] and [series <= ts] for a converted bound; against
    [NaT] both are false. *)
Definition bound_geb (t ts : Timestamp) : bool :=
  match ts with Some b => time_geb t b | None => false end.

Definition bound_leb (t ts : Timestamp) : bool :=
  match ts with Some b => time_leb t b | None => false end.

(** [self.df[self.df["Date Time"] >= pd.to_datetime(bound, unit="ms")]]
    (or [<=]): [self.df["Date Time"]] is evaluated first, and [None] is
    not subscriptable; then the bound is converted. *)
Definition select_rows (df : option Table) (bound : Z)
  (cmp : Timestamp -> Timestamp -> bool) : Result (option Table) :=
  match df with
  | None => Raise TypeError
  | Some t =>
      ts <- to_datetime_ms bound ;;
      Ok (Some {| columns := columns t;
                  rows := filter (fun r => cmp (fst r) ts) (rows t) |})
  end.

(** [len(self.df)]. *)
Definition len (df : option Table) : Result nat :=
  match df with
  | None => Raise TypeError
  | Some t => Ok (List.length (rows t))
  end.

Definition apply_time_filters (df : option Table) (timefrom timeto : option Z)
  : Result (option Table * list Printed) :=
  df1 <- (if truthy_int timefrom
          then match timefrom with
               | Some lo => select_rows df lo bound_geb
               | None => Ok df
               end
          else Ok df) ;;
  df2 <- (if truthy_int timeto
          then match timeto with
               | Some hi => select_rows df1 hi bound_leb
               | None => Ok df1
               end
          else Ok df1) ;;
  n <- len df2 ;;
  Ok (df2, [RowsAfterTimeFilter n]).

(** The first two stages of [run]. *)
Definition run_load_filter (wb : Workbook) (timefrom timeto : option Z)
  : Result (option Table * list Printed) :=
  let st := load_and_merge_excel wb in
  apply_time_filters (merged_df st) timefrom timeto.

End Loading.

(** *** [aggregate_data]: the choice of columns *)


Definition cell_or_null (o : option Cell) : Cell :=
  match o with Some v => v | None => Null end.

(** [df[available]]; a name that is no column of [df] raises. *)
Definition select_columns (available : list string) (df : Table)
  : Result Table :=
  if forallb (fun c => mem c (columns df)) available
  then Ok {| columns := available;
             rows := map (fun r : Row =>
                       (fst r,
                        map (fun c => cell_or_null (row_get (columns df) (snd r) c))
                            available))
                     (rows df) |}
  else Raise KeyError.


(** *** [aggregate_data]: the statistics and the names of the output *)

(** An entry of the list [funcs]: a function named by a string, or the
    anonymous function appended for ["mode"]. *)
Inductive AggFunc : Type :=
| ByName (name : string)
| ModeLambda.

(** The [if]/[elif] chain over one requested statistic. *)
Definition funcs_of_stat (s : string) : list AggFunc :=
  if String.eqb s "min" then [ByName "min"]
  else if String.eqb s "max" then [ByName "max"]
  else if String.eqb s "mean" then [ByName "mean"]
  else if String.eqb s "median" then [ByName "median"]
  else if String.eqb s "mode" then [ModeLambda]
  else [].

Definition funcs_of_stats (stats : list string) : list AggFunc :=
  flat_map funcs_of_stat stats.

(** A value of the dictionary [agg_funcs]: a list of functions (numeric
    columns) or one name (the others). *)
Inductive AggSpec : Type :=
| FuncList (funcs : list AggFunc)
| FuncOne (name : string).

Fixpoint set_all {V : Type} (ks : list string) (v : V) (d : Dict V) : Dict V :=
  match ks with
  | [] => d
  | k :: ks' => set_all ks' v (dict_set k v d)
  end.

Definition agg_funcs (numeric_cols non_numeric_cols stats : list string)
  : Dict AggSpec :=
  set_all non_numeric_cols (FuncOne "last")
    (set_all numeric_cols (FuncList (funcs_of_stats stats)) []).

(** The name of a function: the string it is given by, and ["<lambda>"]
    for an anonymous function. *)
Definition callable_name (f : AggFunc) : string :=
  match f with
  | ByName n => n
  | ModeLambda => "<lambda>"
  end.

Definition decimal (i : nat) : string :=
  NilEmpty.string_of_uint (Nat.to_uint i).

(** In a list of more than one function pandas renames the anonymous
    ones ["<lambda_0>"], ["<lambda_1>"], ... in their order. *)
Fixpoint mangle (i : nat) (fs : list AggFunc) : list string :=
  match fs with
  | [] => []
  | ByName n :: fs' => n :: mangle i fs'
  | ModeLambda :: fs' =>
      ("<lambda_" ++ decimal i ++ ">")%string :: mangle (S i) fs'
  end.

(** The labels pandas gives the results of the functions of a list: the
    names of the functions when the list holds one function, the names
    with the anonymous functions renamed when it holds more. *)
Definition func_labels (fs : list AggFunc) : list string :=
  if (List.length fs <=? 1)%nat then map callable_name fs else mangle 0 fs.

(** An entry of [grouped.columns.to_flat_index()]. *)
Inductive Label : Type :=
| Flat (col : string)
| Pair (col stat : string).

Definition is_func_list (a : AggSpec) : bool :=
  match a with FuncList _ => true | FuncOne _ => false end.

(** The column index of [resample(...).agg(agg_funcs)]: pairs as soon as
    one value of the dictionary is a list (a single name then counts as
    a list of one), plain names otherwise. *)
Definition agg_labels (spec : Dict AggSpec) : list Label :=
  if existsb (fun kv => is_func_list (snd kv)) spec
  then flat_map (fun kv : string * AggSpec =>
                   match snd kv with
                   | FuncList fs => map (Pair (fst kv)) (func_labels fs)
                   | FuncOne n => [Pair (fst kv) n]
                   end) spec
  else map (fun kv => Flat (fst kv)) spec.

(** The loop that flattens the column index. *)
Definition flatten (stats : list string) (labels : list Label) : list string :=
  map (fun col =>
         match col with
         | Pair colname stat =>
             if (1 <? List.length stats)%nat
             then (colname ++ "_" ++ stat)%string
             else colname
         | Flat c => c
         end) labels.

(** The header of [self.grouped] for a frame whose columns are [cols];
    [numeric] tells the columns [select_dtypes(include=[np.number])]
    keeps.  [reset_index] puts [Date Time] first. *)
Definition aggregate_data_names (numeric : string -> bool)
  (stats cols : list string) : list string :=
  let numeric_cols := filter numeric cols in
  let non_numeric_cols := filter (fun c => negb (numeric c)) cols in
  "Date Time" :: flatten stats
                   (agg_labels (agg_funcs numeric_cols non_numeric_cols stats)).

(** *** The function appended for ["mode"] *)

(** [np.unique(a, return_counts=True)] on numbers, one at a time: the
    distinct values in ascending order, each with its count. *)
Fixpoint tally (v : Z) (l : list (Z * nat)) : list (Z * nat) :=
  match l with
  | [] => [(v, 1%nat)]
  | (w, n) :: l' =>
      if (v =? w)%Z then (w, S n) :: l'
      else if (v <? w)%Z then (v, 1%nat) :: l
      else (w, n) :: tally v l'
  end.

Definition np_unique_counts (xs : list Z) : list (Z * nat) :=
  fold_right tally [] xs.

(** [cnts.argmax()]: the first entry with the greatest count. *)
Fixpoint argmax_first {A : Type} (l : list (A * nat)) : option (A * nat) :=
  match l with
  | [] => None
  | p :: l' =>
      match argmax_first l' with
      | None => Some p
      | Some q => if (snd q <=? snd p)%nat then Some p else Some q
      end
  end.

(** A value of a numeric column: a number, or [None] for [NaN] (a null
    of the merged table). *)
Definition Reading : Type := option Z.

Definition is_nan (r : Reading) : bool :=
  match r with None => true | Some _ => false end.

(** The numbers of a sample, in order. *)
Definition numbers (x : list Reading) : list Z :=
  flat_map (fun r => match r with Some z => [z] | None => [] end) x.

Definition nan_count (x : list Reading) : nat :=
  List.length (filter is_nan x).

(** [np.unique(a, return_counts=True)] on a sample: the distinct numbers
    in ascending order with their counts, then [NaN] with its count
    when it occurs (NumPy 1.21 and later count all [NaN] as one value
    and sort it last). *)
Definition unique_with_counts (x : list Reading) : list (Reading * nat) :=
  map (fun p : Z * nat => (Some (fst p), snd p)) (np_unique_counts (numbers x))
  ++ match nan_count x with
     | O => []
     | S n => [(None, S n)]
     end.

(** What [sp_stats.mode] with the default [nan_policy='propagate'] does
    with a [NaN] in the sample.  Its implementation takes the values
    from [np.unique] and its notes say that [NaN] is counted like any
    other value ([NanAsValue]); the general description of the policy
    says that a [NaN] in the sample makes the result [NaN]
    ([NanAsResult]).  Both readings are kept. *)
Inductive NanPolicy : Type :=
| NanAsValue
| NanAsResult.

(** [sp_stats.mode(x, keepdims=True).mode[0]]: the first value of
    [np.unique] with the greatest count; [NaN] on an empty sample. *)
Definition scipy_mode (policy : NanPolicy) (x : list Reading) : Reading :=
  let modal :=
    match argmax_first (unique_with_counts x) with
    | Some (v, _) => v
    | None => None
    end in
  match policy with
  | NanAsValue => modal
  | NanAsResult => if existsb is_nan x then None else modal
  end.

(** [lambda x: sp_stats.mode(x, keepdims=True).mode[0] if len(x) > 0
    else np.nan]; [x] holds the values of the column in the bucket,
    nulls included. *)
Definition mode_lambda (policy : NanPolicy) (x : list Reading) : Reading :=
  if (0 <? List.length x)%nat then scipy_mode policy x else None.

End Aggregator.

(* ================================================================== *)
(** ** [normalize_col_name] on strings of arbitrary code points *)
(* ================================================================== *)

Module Unicode.

(** A [str]: the sequence of its code points. *)
Definition str : Type := list N.

(** [a-z], the character class of the regular expression. *)
Definition is_az (c : N) : bool := ((97 <=? c) && (c <=? 122))%N.

(** [A-Z]. *)
Definition is_AZ (c : N) : bool := ((65 <=? c) && (c <=? 90))%N.

(** The upper-case letters of Latin-1 above ASCII: U+00C0 .. U+00DE
    without the multiplication sign U+00D7. *)
Definition is_latin1_upper (c : N) : bool :=
  ((192 <=? c) && (c <=? 222) && negb (c =? 215))%N.

(** [str.lower] on one character.  [A-Z] become [a-z] and the upper-case
    letters of Latin-1 their lower-case letters; U+0130 (capital I with
    dot above) becomes [i] followed by the combining dot U+0307; U+212A
    (the Kelvin sign) becomes [k].  The other upper-case characters, all
    from U+0100 on, have lower-case forms without any character of
    [a-z]; the table leaves them out, and such a character stands for
    its lower-case form. *)
Definition lower_char (c : N) : list N :=
  if is_AZ c || is_latin1_upper c then [(c + 32)%N]
  else if (c =? 304)%N then [105%N; 775%N]
  else if (c =? 8490)%N then [107%N]
  else [c].

(** [str.lower]. *)
Definition lower (s : str) : str := flat_map lower_char s.

(** [re.sub(r"[^a-z]+", "", s)]: exactly the characters of [a-z] stay, in
    order. *)
Definition re_sub_non_az (s : str) : str := filter is_az s.

Definition normalize_col_name (col : str) : str :=
  let col := lower col in
  let col := re_sub_non_az col in
  col.

(** The code points of a string whose characters are below 256. *)
Definition of_string (s : string) : str :=
  map N_of_ascii (list_ascii_of_string s).

End Unicode.

(* ================================================================== *)
(** ** Vocabulary of the statements *)
(* ================================================================== *)

Module Spec.
Import PyStr Frame Aggregator.

(** Every character of [s] satisfies [p]. *)
Fixpoint str_forall (p : ascii -> bool) (s : string) : bool :=
  match s with
  | EmptyString => true
  | String c s' => p c && str_forall p s'
  end.

(** A character with a letter of [a-z] in its lower-case form: an ASCII
    letter, U+0130 or U+212A. *)
Definition lettered (c : N) : bool :=
  Unicode.is_az c || Unicode.is_AZ c || (c =? 304)%N || (c =? 8490)%N.

(** The characters of [s] that are [lettered], in order: [s] without
    digits, punctuation, blanks and every other character that leaves no
    letter of [a-z]. *)
Definition letters (s : Unicode.str) : Unicode.str := filter lettered s.

(** [sub] occurs in [s] as a contiguous substring. *)
Definition Substring (sub s : string) : Prop :=
  exists a b, s = (a ++ sub ++ b)%string.

(** The outcome of resolving one request against the index: the value of
    the first entry, in insertion order, whose key contains the
    normalized request; nothing when no key contains it. *)
Inductive resolves (col_map : ColMap) (req : string) : option string -> Prop :=
| resolves_first (pre post : ColMap) (k v : string) :
    col_map = pre ++ (k, v) :: post ->
    Substring (normalize_col_name req) k ->
    (forall k' v', In (k', v') pre -> ~ Substring (normalize_col_name req) k') ->
    resolves col_map req (Some v)
| resolves_none :
    (forall k v, In (k, v) col_map -> ~ Substring (normalize_col_name req) k) ->
    resolves col_map req None.

Definition mapped_of (o : option string) : list string :=
  match o with Some v => [v] | None => [] end.

Definition warning_of (ro : string * option string) : list Printed :=
  match snd ro with Some _ => [] | None => [ColumnNotFound (fst ro)] end.

(** What [map_columns] owes its caller on the requests [reqs]. *)
Definition map_columns_spec (col_map : ColMap) (reqs : list string) : Prop :=
  exists outcomes : list (option string),
    Forall2 (resolves col_map) reqs outcomes
    /\ fst (map_columns col_map reqs) = flat_map mapped_of outcomes
    /\ snd (map_columns col_map reqs)
       = flat_map warning_of (combine reqs outcomes).

(** Canonical names are never empty. *)
Definition values_nonempty (col_map : ColMap) : Prop :=
  Forall (fun kv : string * string => snd kv <> EmptyString) col_map.

(** An empty workbook read as C2 states it: a merged table without rows
    comes out and the next stage of [run] goes through. *)
Definition empty_workbook_gives_empty_table
  (to_datetime : Cell -> option Z) : Prop :=
  exists t,
    merged_df (load_and_merge_excel to_datetime []) = Some t
    /\ rows t = []
    /\ exists out, run_load_filter to_datetime [] None None = Ok out.

(** The column of a label. *)
Definition label_col (l : Label) : string :=
  match l with Flat c => c | Pair c _ => c end.

End Spec.

Module Window.
Import Frame Aggregator.

(** A bound that [pd.to_datetime(bound, unit="ms")] turns into an
    instant: none, or one between [ms_min] and [ms_max]. *)
Definition representable (b : option Z) : Prop :=
  forall z, b = Some z -> (ms_min <= z <= ms_max)%Z.

(** A 64-bit integer. *)
Definition int64 (z : Z) : Prop :=
  (- 9223372036854775808 <= z <= 9223372036854775807)%Z.

(** The inclusive window of the bounds that were given. *)
Definition in_window (timefrom timeto : option Z) (r : Row) : bool :=
  match timefrom with Some lo => time_geb (fst r) lo | None => true end
  && match timeto with Some hi => time_leb (fst r) hi | None => true end.

Definition window_filtered (t : Table) (timefrom timeto : option Z) : Table :=
  {| columns := columns t;
     rows := filter (in_window timefrom timeto) (rows t) |}.

(** [apply_time_filters] keeps exactly the rows of the window and prints
    their number. *)
Definition filters_window (timefrom timeto : option Z) : Prop :=
  forall t : Table,
    apply_time_filters (Some t) timefrom timeto
    = Ok (Some (window_filtered t timefrom timeto),
          [RowsAfterTimeFilter
             (List.length (rows (window_filtered t timefrom timeto)))]).

(** A row whose timestamp equals a given bound is kept (the other bound
    permitting). *)
Definition keeps_boundary_rows (timefrom timeto : option Z) : Prop :=
  forall (t : Table) (r : Row) (b : Z),
    In r (rows t) -> fst r = Some b ->
    (timefrom = Some b /\ in_window None timeto r = true)
    \/ (timeto = Some b /\ in_window timefrom None r = true) ->
    In r (rows (window_filtered t timefrom timeto)).

End Window.

Module Selection.
Import Frame Aggregator.




End Selection.

Module Mode.
Import Aggregator.

(** How often [v] occurs among the values of a bucket. *)
Definition occurrences (v : Z) (x : list Z) : nat := count_occ Z.eq_dec x v.

(** [m] is the smallest of the most frequent values of [x]. *)
Definition is_mode (x : list Z) (m : Z) : Prop :=
  In m x
  /\ (forall y, occurrences y x <= occurrences m x)
  /\ (forall y, occurrences y x = occurrences m x -> (m <= y)%Z).

(** The count recorded for [v] in a table of counts. *)
Fixpoint count_of (v : Z) (l : list (Z * nat)) : nat :=
  match l with
  | [] => 0
  | (w, n) :: l' => if (v =? w)%Z then n else count_of v l'
  end.

(** The values of a table of counts increase strictly. *)
Fixpoint ascending (l : list (Z * nat)) : Prop :=
  match l with
  | [] => True
  | p :: l' => Forall (fun q => (fst p < fst q)%Z) l' /\ ascending l'
  end.

(** The claim of C5 read for every bucket that holds a value: the mode
    is the smallest of the most frequent values of the bucket. *)
Definition mode_spec (policy : NanPolicy) : Prop :=
  mode_lambda policy [] = None
  /\ forall x, numbers x <> [] ->
       exists m, mode_lambda policy x = Some m /\ is_mode (numbers x) m.

(** Null occurs in the bucket more often than every value. *)
Definition nulls_prevail (x : list Reading) : Prop :=
  forall v, occurrences v (numbers x) < nan_count x.

End Mode.

Module Join.
Import Frame Aggregator.

(** The cells a frame contributes to the merged row of key [k]: those of
    its first row with that key, nulls when it has none. *)
Definition cells_at (t : Table) (k : Timestamp) : list Cell :=
  match rows_with k (rows t) with
  | r :: _ => snd r
  | [] => nulls (List.length (columns t))
  end.

(** The frame [read_sheet] makes of a sheet (it does not depend on the
    index handed in). *)
Definition sheet_frame (to_datetime : Cell -> option Z) (s : Sheet) : Table :=
  fst (read_sheet to_datetime s []).

(** The outer-join invariant of a merged table [T] over the frames that
    went into it: the keys of [T] are those of the frames taken
    together; no key occurs twice; every row of every frame is found
    under its key with its cells unchanged; and where a frame has no row
    for a key, its columns hold null. *)
Definition outer_join_invariant (frames : list Table) (T : Table) : Prop :=
  (forall k, In k (keys T) <-> exists f, In f frames /\ In k (keys f))
  /\ NoDup (keys T)
  /\ (forall f k cells, In f frames -> In (k, cells) (rows f) ->
        exists row, In (k, row) (rows T)
          /\ forall c, In c (columns f) ->
               row_get (columns T) row c = row_get (columns f) cells c)
  /\ (forall f k row, In f frames -> In (k, row) (rows T) ->
        ~ In k (keys f) ->
        forall c, In c (columns f) -> row_get (columns T) row c = Some Null).

(** The frames that go into the merged table: those of the sheets the
    loop reads, which are the first two of the workbook (lemma
    [load_reads_first_two]). *)
Definition processed_frames (to_datetime : Cell -> option Z) (wb : Workbook)
  : list Table :=
  map (sheet_frame to_datetime) (firstn 2 wb).

(** The conditions of the invariant: the frames are rectangular, each has
    pairwise distinct timestamps, and no column name occurs twice among
    them. *)
Definition well_formed (frames : list Table) : Prop :=
  Forall rectangular frames
  /\ Forall (fun f => NoDup (keys f)) frames
  /\ NoDup (List.concat (map columns frames)).

(** Strictly ascending in the order of the keys. *)
Fixpoint key_sorted (l : list Timestamp) : Prop :=
  match l with
  | [] => True
  | h :: l' => Forall (fun y => key_ltb h y = true) l' /\ key_sorted l'
  end.

End Join.

Module Examples.
Import Frame Aggregator.

(** A conversion that accepts date cells only. *)
Definition parse (c : Cell) : option Z :=
  match c with
  | Stamp ms => Some ms
  | _ => None
  end.

Definition sheet_A : Sheet :=
  {| sheet_name := "Input A_1";
     sheet_columns := ["temp"; "pressure"];
     sheet_rows := [(Stamp 1000, [Number 10; Number 100]);
                    (Stamp 2000, [Number 20; Number 200])] |}.

Definition sheet_B : Sheet :=
  {| sheet_name := "Input B_1";
     sheet_columns := ["temp"];
     sheet_rows := [(Stamp 2000, [Number 7]);
                    (Text "n/a", [Number 8]);
                    (Stamp 3000, [Number 9])] |}.

Definition sheet_C : Sheet :=
  {| sheet_name := "Input C_1";
     sheet_columns := ["temp"];
     sheet_rows := [(Stamp 2000, [Number 1])] |}.

Definition sheet_D : Sheet :=
  {| sheet_name := "Input D_1";
     sheet_columns := ["humidity"];
     sheet_rows := [(Stamp 4000, [Number 55])] |}.



Definition three_sheets : Workbook := [sheet_A; sheet_B; sheet_C].
Definition four_sheets : Workbook := [sheet_A; sheet_B; sheet_C; sheet_D].

(** A frame with a reading from before 1970. *)
Definition old_readings : Table :=
  {| columns := ["A_temp"];
     rows := [(Some (-1)%Z, [Number 5]); (Some 1%Z, [Number 6])] |}.

(** The index of the example of the specification: ["devatemp"] was
    entered before ["temp"]. *)
Definition example_index : ColMap :=
  [("devatemp", "devA_temp"); ("temp", "_temp")].


End Examples.

(* ================================================================== *)
(** ** [plot_results] and [interactive_menu] *)
(* ================================================================== *)

Module Plot.
Import PyStr Frame Aggregator.

(** [next((v for k, v in self.col_map.items() if v in col), col)]: the
    legend label of the output column [col]. *)
Definition original_name (col_map : ColMap) (col : string) : string :=
  match find (fun kv => contains (snd kv) col) col_map with
  | Some kv => snd kv
  | None => col
  end.

(** What [plot_results] does: nothing, a warning, or one line per numeric
    column of [self.grouped], each with its legend label. *)
Inductive PlotOutcome : Type :=
| NotPlotted
| NoNumericColumns
| Plotted (series : list (string * string)).

(** [plot_results]; [numeric_cols] are the columns
    [self.grouped.select_dtypes(include=[np.number])] keeps. *)
Definition plot_results (plot_enabled : bool) (col_map : ColMap)
  (numeric_cols : list string) : PlotOutcome :=
  if negb plot_enabled then NotPlotted
  else match numeric_cols with
       | [] => NoNumericColumns
       | _ :: _ =>
           Plotted (map (fun col => (col, original_name col_map col))
                        numeric_cols)
       end.

End Plot.

Module Menu.
Import PyStr Frame Aggregator.

(** [str.split()] without arguments: the maximal runs of characters that
    are not white space; [cur] is the run being read. *)
Fixpoint split_aux (cur s : string) : list string :=
  match s with
  | EmptyString =>
      match cur with EmptyString => [] | _ => [cur] end
  | String c s' =>
      if is_space c
      then match cur with
           | EmptyString => split_aux EmptyString s'
           | _ => cur :: split_aux EmptyString s'
           end
      else split_aux (cur ++ String c EmptyString)%string s'
  end.

Definition split (s : string) : list string := split_aux EmptyString s.

(** [0-9]. *)
Definition is_digit (c : ascii) : bool := ((48 <=? code c) && (code c <=? 57))%N.

Definition digit_value (c : ascii) : Z := Z.of_N (code c - 48).

(** The digits of an integer literal, single underscores allowed between
    two digits; [prev] tells whether the previous character was a
    digit. *)
Fixpoint digits (acc : Z) (prev : bool) (s : string) : option Z :=
  match s with
  | EmptyString => if prev then Some acc else None
  | String c s' =>
      if is_digit c then digits (10 * acc + digit_value c) true s'
      else if Ascii.eqb c "_"%char
           then if prev then digits acc false s' else None
           else None
  end.

(** [int(s)] on a string: white space around, an optional sign, decimal
    digits.  (The limit recent interpreters put on the number of digits
    is not modelled.) *)
Definition int (s : string) : Result Z :=
  let body :=
    match strip s with
    | String "+"%char r => digits 0 false r
    | String "-"%char r => option_map Z.opp (digits 0 false r)
    | r => digits 0 false r
    end in
  match body with
  | Some z => Ok z
  | None => Raise ValueError
  end.

(** The truth value of a [str]. *)
Definition truthy (s : string) : bool :=
  match s with EmptyString => false | _ => true end.

(** The lines typed at the seven prompts, in the order asked. *)
Record Answers : Type := mkAnswers {
  ans_file_path : string;
  ans_group_by : string;
  ans_stats : string;
  ans_columns : string;
  ans_timefrom : string;
  ans_timeto : string;
  ans_plot : string
}.

(** The dictionary [interactive_menu] returns, and the keyword arguments
    of [TimeSeriesAggregator]. *)
Record Params : Type := mkParams {
  file_path : string;
  group_by : string;
  stats : list string;
  columns : option (list string);
  timefrom : option Z;
  timeto : option Z;
  plot : bool
}.

Definition optional_int (s : string) : Result (option Z) :=
  if truthy s then (z <- int s ;; Ok (Some z)) else Ok None.

Definition interactive_menu (a : Answers) : Result Params :=
  let file_path := strip (ans_file_path a) in
  let group_by := strip (ans_group_by a) in
  let stats := strip (ans_stats a) in
  let stats_list := if truthy stats then split stats else ["mean"] in
  let columns := strip (ans_columns a) in
  let columns_list := if truthy columns then Some (split columns) else None in
  timefrom <- optional_int (strip (ans_timefrom a)) ;;
  timeto <- optional_int (strip (ans_timeto a)) ;;
  let plot_input := lower (strip (ans_plot a)) in
  let plot := String.eqb plot_input "y" in
  Ok {| file_path := file_path;
        group_by := group_by;
        stats := stats_list;
        columns := columns_list;
        timefrom := timefrom;
        timeto := timeto;
        plot := plot |}.

End Menu.

Module Further.
Import PyStr Frame Aggregator Spec Plot Menu.

(** The invariant of the index: no key twice, and every key is the
    normalized form of the name stored under it. *)
Definition index_invariant (cm : ColMap) : Prop :=
  NoDup (map fst cm)
  /\ forall k v, In (k, v) cm -> k = normalize_col_name v.

(** A request whose normalized form occurs in some key resolves. *)
Definition resolves_to_a_column (cm : ColMap) (req : string) : Prop :=
  exists k v,
    In (k, v) cm
    /\ Substring (normalize_col_name req) k
    /\ map_columns cm [req] = ([v], []).

(** The bound [apply_time_filters] acts on: the bound given, unless its
    truth value is false. *)
Definition applied_bound (b : option Z) : option Z :=
  if truthy_int b then b else None.

(** The bound converted by [pd.to_datetime], when it is acted on. *)
Definition converted (b : option Z) : Result (option Timestamp) :=
  match applied_bound b with
  | None => Ok None
  | Some z => ts <- to_datetime_ms z ;; Ok (Some ts)
  end.

(** The test a converted bound puts on a row. *)
Definition passes (cmp : Timestamp -> Timestamp -> bool)
  (b : option Timestamp) (r : Row) : bool :=
  match b with Some ts => cmp (fst r) ts | None => true end.

(** The rows of [t] that pass both converted bounds. *)
Definition kept (t : Table) (lo hi : option Timestamp) : Table :=
  {| Frame.columns := Frame.columns t;
     Frame.rows :=
       filter (fun r => passes bound_geb lo r && passes bound_leb hi r)
              (Frame.rows t) |}.

(** A 64-bit integer other than 0 that [pd.to_datetime(_, unit="ms")]
    cannot hold and that does not stand for [NaT]. *)
Definition out_of_bounds (z : Z) : Prop :=
  Window.int64 z /\ z <> 0%Z /\ z <> nat_value
  /\ ~ (ms_min <= z <= ms_max)%Z.

Definition free_of (sep : ascii) (s : string) : bool :=
  str_forall (fun c => negb (Ascii.eqb c sep)) s.

(** No column of the sheet is named like the canonical name of another
    (or of itself). *)
Definition no_name_clash (device : string) (cols : list string) : Prop :=
  forall c c', In c cols -> In c' cols -> c <> prefixed device c'.

(** The name of an output column: [<column>_<label>] when more than one
    statistic was requested, the column's own name otherwise. *)
Definition output_name (stats : list string) (col label : string) : string :=
  if (1 <? List.length stats)%nat then (col ++ "_" ++ label)%string else col.

(** The labels of the statistics that are computed, in the order
    requested. *)
Definition stat_labels (stats : list string) : list string :=
  func_labels (funcs_of_stats stats).

(** The header after [Date Time]: the numeric columns first, each with
    one column per computed statistic, then the other columns with the
    label [last]; or the columns as they are when none is numeric. *)
Definition header_of (numeric : string -> bool) (stats cols : list string)
  : list string :=
  match filter numeric cols with
  | [] => cols
  | _ :: _ =>
      flat_map (fun c => map (output_name stats c) (stat_labels stats))
               (filter numeric cols)
      ++ map (fun c => output_name stats c "last")
             (filter (fun c => negb (numeric c)) cols)
  end.

Definition text_column (c : string) : bool := String.eqb c "A_note".

(** The legend label of a column: the first canonical name of the index,
    in insertion order, that occurs in the name of the column, and the
    name of the column when none does. *)
Definition label_spec (cm : ColMap) (col label : string) : Prop :=
  (exists pre post k,
     cm = pre ++ (k, label) :: post
     /\ Substring label col
     /\ forall k' v', In (k', v') pre -> ~ Substring v' col)
  \/ (label = col /\ forall k v, In (k, v) cm -> ~ Substring v col).

(** Every row of the sheet has one cell per column. *)
Definition sheet_rectangular (s : Sheet) : Prop :=
  Forall (fun r : Cell * list Cell =>
            List.length (snd r) = List.length (sheet_columns s))
         (sheet_rows s).

(** A token: not empty and free of white space. *)
Definition token (s : string) : Prop :=
  s <> EmptyString /\ str_forall (fun c => negb (is_space c)) s = true.

End Further.

(* ================================================================== *)
(** ** Strings: containment and normalization *)
(* ================================================================== *)

Section Strings.
Import PyStr Frame Aggregator Spec.

Lemma starts_with_spec (p s : string) :
  starts_with p s = true <-> exists b, s = (p ++ b)%string.
Proof.
  revert s; induction p as [|a p IH]; intros s; simpl.
  - split; [intros _; now exists s | reflexivity].
  - destruct s as [|c s]; simpl.
    + split; [discriminate | intros [b Hb]; discriminate].
    + rewrite andb_true_iff, Ascii.eqb_eq, IH. split.
      * intros [-> [b ->]]. now exists b.
      * intros [b Hb]. injection Hb as -> ->. split; [reflexivity | now exists b].
Qed.

Lemma contains_spec (sub s : string) :
  contains sub s = true <-> Substring sub s.
Proof.
  unfold Substring. induction s as [|c s IH].
  - simpl. rewrite orb_false_r, starts_with_spec. split.
    + intros [b Hb]. exists EmptyString, b. exact Hb.
    + intros [a [b H]]. destruct a; [now exists b | discriminate].
  - cbn [contains]. rewrite orb_true_iff, starts_with_spec, IH. split.
    + intros [[b Hb] | [a [b Hb]]].
      * exists EmptyString, b. exact Hb.
      * exists (String c a), b. simpl. now rewrite Hb.
    + intros [a [b H]]. destruct a as [|c' a]; simpl in H.
      * left. now exists b.
      * right. injection H as _ H. now exists a, b.
Qed.

(** A fact about one character is checked on each of the 256. *)
Ltac each_char c := destruct c as [[] [] [] [] [] [] [] []].

Lemma lower_char_az (c : ascii) : is_az c = true -> lower_char c = c.
Proof.
  each_char c; vm_compute; intros H; first [reflexivity | discriminate H].
Qed.

Lemma normalize_all_az (s : string) :
  str_forall is_az (normalize_col_name s) = true.
Proof.
  unfold normalize_col_name. induction s as [|c s IH]; simpl; [reflexivity|].
  destruct (is_az (lower_char c)) eqn:E; simpl; [now rewrite E | exact IH].
Qed.

Lemma normalize_fixes_az (s : string) :
  str_forall is_az s = true -> normalize_col_name s = s.
Proof.
  unfold normalize_col_name. induction s as [|c s IH]; simpl; [reflexivity|].
  rewrite andb_true_iff. intros [Hc Hs].
  rewrite (lower_char_az c Hc), Hc. f_equal. now apply IH.
Qed.

(** *** Strings of arbitrary code points *)

Lemma latin1_upper_range (c : N) :
  Unicode.is_latin1_upper c = true -> (192 <= c <= 222)%N.
Proof.
  unfold Unicode.is_latin1_upper. intros H.
  apply andb_true_iff in H. destruct H as [H _].
  apply andb_true_iff in H. destruct H as [H1 H2].
  apply N.leb_le in H1, H2. lia.
Qed.

Lemma az_range (c : N) : Unicode.is_az c = true <-> (97 <= c <= 122)%N.
Proof.
  unfold Unicode.is_az. rewrite andb_true_iff, !N.leb_le. tauto.
Qed.

Lemma AZ_range (c : N) : Unicode.is_AZ c = true <-> (65 <= c <= 90)%N.
Proof.
  unfold Unicode.is_AZ. rewrite andb_true_iff, !N.leb_le. tauto.
Qed.

(** Outside the upper-case letters of ASCII and Latin-1, U+0130 and
    U+212A a character is its own lower-case form. *)
Lemma unicode_lower_char_other (c : N) :
  Unicode.is_AZ c = false -> Unicode.is_latin1_upper c = false ->
  c <> 304%N -> c <> 8490%N -> Unicode.lower_char c = [c].
Proof.
  intros H1 H2 H3 H4. unfold Unicode.lower_char. rewrite H1, H2. simpl.
  destruct (N.eqb_spec c 304); [contradiction|].
  destruct (N.eqb_spec c 8490); [contradiction | reflexivity].
Qed.

Lemma unicode_lower_char_az (c : N) :
  Unicode.is_az c = true -> Unicode.lower_char c = [c].
Proof.
  intros H. apply az_range in H. apply unicode_lower_char_other; try lia.
  - destruct (Unicode.is_AZ c) eqn:E; [|reflexivity].
    apply AZ_range in E. lia.
  - destruct (Unicode.is_latin1_upper c) eqn:E; [|reflexivity].
    apply latin1_upper_range in E. lia.
Qed.

Lemma unicode_normalize_cons (c : N) (s : Unicode.str) :
  Unicode.normalize_col_name (c :: s)
  = filter Unicode.is_az (Unicode.lower_char c) ++ Unicode.normalize_col_name s.
Proof.
  unfold Unicode.normalize_col_name, Unicode.re_sub_non_az, Unicode.lower.
  simpl. apply filter_app.
Qed.

Lemma unicode_normalize_all_az (s : Unicode.str) :
  Forall (fun c => Unicode.is_az c = true) (Unicode.normalize_col_name s).
Proof.
  apply Forall_forall. intros c Hc.
  unfold Unicode.normalize_col_name, Unicode.re_sub_non_az in Hc.
  now apply filter_In in Hc.
Qed.

Lemma unicode_normalize_fixes_az (s : Unicode.str) :
  Forall (fun c => Unicode.is_az c = true) s ->
  Unicode.normalize_col_name s = s.
Proof.
  induction 1 as [|c s Hc Hs IH]; [reflexivity|].
  rewrite unicode_normalize_cons, (unicode_lower_char_az c Hc), IH.
  simpl. now rewrite Hc.
Qed.

Lemma unicode_unlettered (c : N) :
  lettered c = false -> filter Unicode.is_az (Unicode.lower_char c) = [].
Proof.
  unfold lettered. intros H.
  apply orb_false_iff in H. destruct H as [H H4].
  apply orb_false_iff in H. destruct H as [H H3].
  apply orb_false_iff in H. destruct H as [H1 H2].
  apply N.eqb_neq in H3, H4.
  destruct (Unicode.is_latin1_upper c) eqn:E.
  - unfold Unicode.lower_char. rewrite H2, E. simpl.
    apply latin1_upper_range in E.
    destruct (Unicode.is_az (c + 32)) eqn:Ez; [|reflexivity].
    apply az_range in Ez. lia.
  - rewrite (unicode_lower_char_other c H2 E H3 H4). simpl. now rewrite H1.
Qed.

Lemma unicode_normalize_letters (s : Unicode.str) :
  Unicode.normalize_col_name (letters s) = Unicode.normalize_col_name s.
Proof.
  induction s as [|c s IH]; [reflexivity|].
  unfold letters in *. cbn [filter].
  destruct (lettered c) eqn:E.
  - now rewrite !unicode_normalize_cons, IH.
  - now rewrite unicode_normalize_cons, (unicode_unlettered c E), IH.
Qed.

(** On one character below 256 the two models agree. *)
Lemma lower_char_agrees (c : ascii) :
  filter Unicode.is_az (Unicode.lower_char (N_of_ascii c))
  = if is_az (lower_char c) then [N_of_ascii (lower_char c)] else [].
Proof. each_char c; reflexivity. Qed.

Lemma lower_agrees (s : string) :
  Unicode.lower (Unicode.of_string s) = Unicode.of_string (lower s).
Proof.
  induction s as [|c s IH]; [reflexivity|].
  change (Unicode.of_string (String c s))
    with (N_of_ascii c :: Unicode.of_string s).
  unfold Unicode.lower in *. cbn [flat_map]. rewrite IH.
  assert (E : Unicode.lower_char (N_of_ascii c) = [N_of_ascii (lower_char c)])
    by (each_char c; reflexivity).
  now rewrite E.
Qed.

Lemma normalize_agrees (s : string) :
  Unicode.normalize_col_name (Unicode.of_string s)
  = Unicode.of_string (normalize_col_name s).
Proof.
  induction s as [|c s IH]; [reflexivity|].
  change (Unicode.of_string (String c s))
    with (N_of_ascii c :: Unicode.of_string s).
  rewrite unicode_normalize_cons, IH, lower_char_agrees.
  unfold normalize_col_name. simpl.
  destruct (is_az (lower_char c)); reflexivity.
Qed.

(** C9. [normalize_col_name] is idempotent on every string; its result is
    the lower-cased input without the characters outside [a-z], so it
    consists of the letters [a-z] only and leaves such a string as it
    is; two strings with the same lower-case form, and two strings that
    differ only in characters that leave no letter (digits, punctuation,
    blanks, ...), have the same key.  The only characters beside the
    ASCII letters that leave a letter are U+0130 and the Kelvin sign
    U+212A.  On strings of code points below 256 [str.lower] and the
    function are those of [PyStr] and [Aggregator]; ["Temp-1"] and
    ["TEMP1"] both give ["temp"]. *)
Theorem normalize_col_name_idempotent_insensitive :
  (forall s, Unicode.normalize_col_name (Unicode.normalize_col_name s)
             = Unicode.normalize_col_name s)
  /\ (forall s, Unicode.normalize_col_name s
                = Unicode.re_sub_non_az (Unicode.lower s))
  /\ (forall s, Forall (fun c => Unicode.is_az c = true)
                  (Unicode.normalize_col_name s))
  /\ (forall s, Forall (fun c => Unicode.is_az c = true) s ->
                Unicode.normalize_col_name s = s)
  /\ (forall s t, Unicode.lower s = Unicode.lower t ->
                  Unicode.normalize_col_name s = Unicode.normalize_col_name t)
  /\ (forall s t, letters s = letters t ->
                  Unicode.normalize_col_name s = Unicode.normalize_col_name t)
  /\ (forall s : string,
        Unicode.lower (Unicode.of_string s) = Unicode.of_string (lower s))
  /\ (forall s : string,
        Unicode.normalize_col_name (Unicode.of_string s)
        = Unicode.of_string (normalize_col_name s))
  /\ normalize_col_name "Temp-1" = "temp"
  /\ normalize_col_name "TEMP1" = "temp"
  /\ Unicode.normalize_col_name [84; 101; 109; 112; 8490]%N
     = Unicode.of_string "tempk"
  /\ Unicode.normalize_col_name [304; 46; 49]%N = Unicode.of_string "i".
Proof.
  repeat split.
  - intros s. apply unicode_normalize_fixes_az, unicode_normalize_all_az.
  - apply unicode_normalize_all_az.
  - apply unicode_normalize_fixes_az.
  - intros s t H. unfold Unicode.normalize_col_name. now rewrite H.
  - intros s t H.
    rewrite <- (unicode_normalize_letters s), <- (unicode_normalize_letters t).
    now rewrite H.
  - apply lower_agrees.
  - apply normalize_agrees.
Qed.

End Strings.

(* ================================================================== *)
(** ** [map_columns] *)
(* ================================================================== *)

Section MapColumns.
Import PyStr Frame Aggregator Spec.

Lemma find_first {A : Type} (f : A -> bool) (l : list A) (x : A) :
  find f l = Some x ->
  exists pre post,
    l = pre ++ x :: post /\ f x = true /\ forall y, In y pre -> f y = false.
Proof.
  induction l as [|a l IH]; simpl; [discriminate|].
  destruct (f a) eqn:E.
  - intros [= ->]. exists [], l. repeat split; [exact E | intros y []].
  - intros H. destruct (IH H) as (pre & post & -> & Hx & Hpre).
    exists (a :: pre), post. repeat split; [exact Hx|].
    intros y [<- | Hy]; [exact E | now apply Hpre].
Qed.

Lemma first_match_resolves (cm : ColMap) (req : string) :
  resolves cm req (first_match cm (normalize_col_name req)).
Proof.
  unfold first_match.
  destruct (find _ cm) as [[k v]|] eqn:E; simpl.
  - destruct (find_first _ _ _ E) as (pre & post & Hcm & Hk & Hpre).
    apply (resolves_first cm req pre post k v Hcm).
    + now apply contains_spec.
    + intros k' v' Hin Hsub. apply contains_spec in Hsub.
      specialize (Hpre (k', v') Hin). simpl in Hpre. congruence.
  - apply resolves_none. intros k v Hin Hsub. apply contains_spec in Hsub.
    pose proof (find_none _ _ E (k, v) Hin) as H. simpl in H. congruence.
Qed.

Lemma first_match_value (cm : ColMap) (n v : string) :
  first_match cm n = Some v -> exists k, In (k, v) cm.
Proof.
  unfold first_match. destruct (find _ cm) as [[k w]|] eqn:E; [|discriminate].
  simpl. intros [= ->]. exists k. exact (proj1 (find_some _ _ E)).
Qed.

Lemma first_match_truthy (cm : ColMap) (n : string) :
  values_nonempty cm ->
  truthy_str (first_match cm n)
  = match first_match cm n with Some _ => true | None => false end.
Proof.
  intros Hne. destruct (first_match cm n) as [v|] eqn:E; [|reflexivity].
  destruct (first_match_value _ _ _ E) as [k Hin].
  unfold values_nonempty in Hne. rewrite Forall_forall in Hne.
  specialize (Hne (k, v) Hin). simpl in Hne.
  destruct v; [contradiction | reflexivity].
Qed.

(** Every name [map_columns] returns is a value of the index. *)
Lemma map_columns_values (cm : ColMap) (reqs : list string) (v : string) :
  In v (fst (map_columns cm reqs)) -> exists k, In (k, v) cm.
Proof.
  induction reqs as [|req reqs IH]; simpl; [intros []|].
  destruct (map_columns cm reqs) as [mapped printed]; simpl in IH.
  destruct (first_match cm (normalize_col_name req)) as [w|] eqn:E; simpl.
  - destruct w; simpl; [exact IH|].
    intros [<- | H]; [now apply (first_match_value _ _ _ E) | now apply IH].
  - exact IH.
Qed.

(** Over an index whose canonical names are not empty, [map_columns]
    meets [map_columns_spec]. *)
Lemma map_columns_resolves (col_map : ColMap) (requested_cols : list string) :
  values_nonempty col_map -> map_columns_spec col_map requested_cols.
Proof.
  intros Hne. unfold map_columns_spec.
  exists (map (fun req => first_match col_map (normalize_col_name req))
              requested_cols).
  induction requested_cols as [|req reqs IH]; simpl.
  - repeat split. constructor.
  - destruct IH as (HF & Hm & Hw).
    destruct (map_columns col_map reqs) as [mapped printed]; simpl in Hm, Hw.
    rewrite (first_match_truthy _ _ Hne).
    split; [constructor; [apply first_match_resolves | exact HF]|].
    destruct (first_match col_map (normalize_col_name req)) as [v|];
      simpl; unfold warning_of at 1; simpl; now subst.
Qed.

End MapColumns.

(* ================================================================== *)
(** ** [apply_time_filters] *)
(* ================================================================== *)

Section TimeFilters.
Import Frame Aggregator Window.

Lemma time_geb_spec (t : Timestamp) (lo : Z) :
  time_geb t lo = true <-> exists x, t = Some x /\ (lo <= x)%Z.
Proof.
  unfold time_geb. destruct t as [x|].
  - rewrite Z.leb_le. split.
    + intros H. now exists x.
    + intros (y & [= <-] & H). exact H.
  - split; [discriminate | intros (y & H & _); discriminate H].
Qed.

Lemma time_leb_spec (t : Timestamp) (hi : Z) :
  time_leb t hi = true <-> exists x, t = Some x /\ (x <= hi)%Z.
Proof.
  unfold time_leb. destruct t as [x|].
  - rewrite Z.leb_le. split.
    + intros H. now exists x.
    + intros (y & [= <-] & H). exact H.
  - split; [discriminate | intros (y & H & _); discriminate H].
Qed.

Lemma bound_spec (o : option Z) (p : Z -> bool) (P : Z -> Prop) :
  (forall b, p b = true <-> P b) ->
  match o with Some b => p b | None => true end = true
  <-> forall b, o = Some b -> P b.
Proof.
  intros H. destruct o as [b|].
  - rewrite H. split.
    + intros HP b' [= <-]. exact HP.
    + intros HP. now apply HP.
  - split; [intros _ b Hb; discriminate Hb | reflexivity].
Qed.

Lemma in_window_spec (timefrom timeto : option Z) (r : Row) :
  in_window timefrom timeto r = true <->
  (forall lo, timefrom = Some lo -> exists x, fst r = Some x /\ (lo <= x)%Z)
  /\ (forall hi, timeto = Some hi -> exists x, fst r = Some x /\ (x <= hi)%Z).
Proof.
  unfold in_window. rewrite andb_true_iff.
  pose proof (bound_spec timefrom (time_geb (fst r)) _ (time_geb_spec (fst r))) as A.
  pose proof (bound_spec timeto (time_leb (fst r)) _ (time_leb_spec (fst r))) as B.
  tauto.
Qed.

Lemma filter_twice {A : Type} (p q : A -> bool) (l : list A) :
  filter q (filter p l) = filter (fun x => p x && q x) l.
Proof.
  induction l as [|a l IH]; simpl; [reflexivity|].
  destruct (p a); simpl; [destruct (q a)|]; now rewrite IH.
Qed.

Lemma filter_all {A : Type} (l : list A) : filter (fun _ => true) l = l.
Proof. induction l as [|a l IH]; simpl; [reflexivity | now rewrite IH]. Qed.

Lemma filter_andb_true {A : Type} (p : A -> bool) (l : list A) :
  filter (fun x => p x && true) l = filter p l.
Proof.
  induction l as [|a l IH]; simpl; [reflexivity|].
  rewrite andb_true_r, IH. reflexivity.
Qed.

Lemma nonzero_eqb (b : Z) : Some b <> Some 0%Z -> (b =? 0)%Z = false.
Proof. intros H. apply Z.eqb_neq. congruence. Qed.

Lemma to_datetime_ms_in_range (z : Z) :
  (ms_min <= z <= ms_max)%Z -> to_datetime_ms z = Ok (Some z).
Proof.
  intros [H1 H2]. unfold to_datetime_ms.
  destruct (Z.eqb_spec z nat_value) as [E|E];
    [unfold ms_min, nat_value in *; lia|].
  apply Z.leb_le in H1, H2. now rewrite H1, H2.
Qed.

Lemma select_rows_in_range (t : Table) (b : Z)
  (cmp : Timestamp -> Timestamp -> bool) :
  (ms_min <= b <= ms_max)%Z ->
  select_rows (Some t) b cmp
  = Ok (Some {| columns := columns t;
                rows := filter (fun r => cmp (fst r) (Some b)) (rows t) |}).
Proof.
  intros H. unfold select_rows. now rewrite (to_datetime_ms_in_range _ H).
Qed.

Lemma filters_window_nonzero (timefrom timeto : option Z) :
  timefrom <> Some 0%Z -> timeto <> Some 0%Z ->
  representable timefrom -> representable timeto ->
  filters_window timefrom timeto.
Proof.
  intros Hf Ht Rf Rt t.
  unfold apply_time_filters, window_filtered, in_window, truthy_int.
  destruct timefrom as [lo|], timeto as [hi|];
    rewrite ?(nonzero_eqb _ Hf), ?(nonzero_eqb _ Ht); cbn [negb];
    rewrite ?(select_rows_in_range _ _ _ (Rf _ eq_refl)); cbn [bind];
    rewrite ?(select_rows_in_range _ _ _ (Rt _ eq_refl)); simpl.
  - now rewrite filter_twice.
  - now rewrite filter_andb_true.
  - reflexivity.
  - rewrite filter_all. now destruct t.
Qed.

(** C6, as amended. For bounds other than 0 that [pd.to_datetime] can hold
    (between -9223372036854 and 9223372036854 milliseconds),
    [apply_time_filters] is inclusive at both ends: it keeps exactly the
    rows whose timestamp is at least the lower bound (if one is given)
    and at most the upper bound (if one is given), prints their number,
    does not filter on a side without a bound, and keeps a row whose
    timestamp equals a bound. *)
Theorem apply_time_filters_inclusive_window (timefrom timeto : option Z) :
  timefrom <> Some 0%Z -> timeto <> Some 0%Z ->
  representable timefrom -> representable timeto ->
  filters_window timefrom timeto /\ keeps_boundary_rows timefrom timeto.
Proof.
  intros Hf Ht Rf Rt. split; [now apply filters_window_nonzero|].
  intros t r b Hin Hr Hb. unfold window_filtered; simpl.
  apply filter_In. split; [exact Hin|].
  unfold in_window in *. simpl in Hb.
  destruct Hb as [[-> H] | [-> H]].
  - rewrite H. unfold time_geb. rewrite Hr. now rewrite Z.leb_refl.
  - rewrite andb_true_r in H. rewrite H. unfold time_leb. rewrite Hr.
    now rewrite Z.leb_refl.
Qed.

(** C10. A bound equal to 0 is treated as a bound that was not given:
    on either side it changes nothing, and with both bounds 0 every row
    stays, whatever its timestamp; a row stamped one millisecond before
    1970 passes the lower bound 0. *)
Theorem zero_bound_is_treated_as_absent :
  (forall df timeto,
     apply_time_filters df (Some 0%Z) timeto = apply_time_filters df None timeto)
  /\ (forall df timefrom,
     apply_time_filters df timefrom (Some 0%Z)
     = apply_time_filters df timefrom None)
  /\ (forall t,
     apply_time_filters (Some t) (Some 0%Z) (Some 0%Z)
     = Ok (Some t, [RowsAfterTimeFilter (List.length (rows t))]))
  /\ apply_time_filters (Some Examples.old_readings) (Some 0%Z) None
     = Ok (Some Examples.old_readings, [RowsAfterTimeFilter 2]).
Proof.
  repeat split.
Qed.

End TimeFilters.

(* ================================================================== *)
(** ** [aggregate_data]: when the choice of columns raises *)
(* ================================================================== *)

Section SelectionFacts.
Import Frame Aggregator Selection.

Lemma mem_spec (c : string) (l : list string) : mem c l = true <-> In c l.
Proof.
  unfold mem. rewrite existsb_exists. split.
  - intros (x & Hin & Hx). apply String.eqb_eq in Hx. now subst.
  - intros H. exists c. split; [exact H | apply String.eqb_refl].
Qed.





End SelectionFacts.

(* ================================================================== *)
(** ** The mode of a bucket *)
(* ================================================================== *)

Section ModeFacts.
Import Aggregator Mode.

Lemma tally_above (b v : Z) (l : list (Z * nat)) :
  (b < v)%Z -> Forall (fun q => (b < fst q)%Z) l ->
  Forall (fun q => (b < fst q)%Z) (tally v l).
Proof.
  intros Hb. induction l as [|[w n] l IH]; simpl; intros H.
  - constructor; [exact Hb | constructor].
  - inversion H as [|? ? Hw Hl]; subst. simpl in Hw.
    destruct (Z.eqb_spec v w); [|destruct (Z.ltb_spec v w)].
    + constructor; [exact Hw | exact Hl].
    + constructor; [exact Hb | exact H].
    + constructor; [exact Hw | now apply IH].
Qed.

Lemma tally_ascending (v : Z) (l : list (Z * nat)) :
  ascending l -> ascending (tally v l).
Proof.
  induction l as [|[w n] l IH]; simpl; intros H.
  - split; [constructor | exact I].
  - destruct H as [Hw Hl].
    destruct (Z.eqb_spec v w); [|destruct (Z.ltb_spec v w)]; simpl.
    + split; assumption.
    + split; [|split; assumption].
      constructor; [exact H|].
      eapply Forall_impl; [|exact Hw]. simpl. intros q Hq. lia.
    + split; [|now apply IH].
      apply tally_above; [simpl; lia | exact Hw].
Qed.

Lemma count_of_above (v : Z) (l : list (Z * nat)) :
  Forall (fun q => (v < fst q)%Z) l -> count_of v l = 0.
Proof.
  induction 1 as [|[w n] l Hw Hl IH]; simpl; [reflexivity|].
  simpl in Hw. destruct (Z.eqb_spec v w); [lia | exact IH].
Qed.

Lemma tally_count (v w : Z) (l : list (Z * nat)) :
  ascending l ->
  count_of v (tally w l)
  = if (v =? w)%Z then S (count_of v l) else count_of v l.
Proof.
  induction l as [|[u n] l IH]; simpl; intros H.
  - now destruct (v =? w)%Z.
  - destruct H as [Hu Hl].
    destruct (Z.eqb_spec w u) as [->|Hwu]; [|destruct (Z.ltb_spec w u)]; simpl.
    + now destruct (v =? u)%Z.
    + destruct (Z.eqb_spec v w) as [->|Hvw].
      * destruct (Z.eqb_spec w u); [lia|].
        rewrite count_of_above; [reflexivity|].
        eapply Forall_impl; [|exact Hu]. simpl. intros q Hq. lia.
      * reflexivity.
    + rewrite (IH Hl).
      destruct (Z.eqb_spec v u) as [->|Hvu]; [|reflexivity].
      destruct (Z.eqb_spec u w); [lia | reflexivity].
Qed.

Lemma np_unique_counts_ascending (x : list Z) : ascending (np_unique_counts x).
Proof.
  induction x as [|v x IH]; simpl; [exact I | now apply tally_ascending].
Qed.

(** The table of counts records, for every value, how often it occurs. *)
Lemma np_unique_counts_count (v : Z) (x : list Z) :
  count_of v (np_unique_counts x) = occurrences v x.
Proof.
  unfold occurrences. induction x as [|w x IH]; simpl; [reflexivity|].
  rewrite tally_count by apply np_unique_counts_ascending. rewrite IH.
  destruct (Z.eqb_spec v w) as [E|E]; destruct (Z.eq_dec w v);
    congruence.
Qed.

Lemma in_count_of (m : Z) (n : nat) (l : list (Z * nat)) :
  ascending l -> In (m, n) l -> count_of m l = n.
Proof.
  induction l as [|[w k] l IH]; simpl; [intros _ []|].
  intros [Hw Hl] [[= -> ->] | Hin].
  - now rewrite Z.eqb_refl.
  - rewrite Forall_forall in Hw. specialize (Hw _ Hin). simpl in Hw.
    destruct (Z.eqb_spec m w); [lia | now apply IH].
Qed.

Lemma count_of_in (v : Z) (l : list (Z * nat)) :
  count_of v l <> 0 -> In (v, count_of v l) l.
Proof.
  induction l as [|[w k] l IH]; simpl; [congruence|].
  destruct (Z.eqb_spec v w) as [->|H]; [now left | intros Hc; right; now apply IH].
Qed.

(** [argmax_first] on a non-empty ascending table: an entry with the
    greatest count, and the least value among those. *)
Lemma argmax_first_spec (l : list (Z * nat)) :
  ascending l -> l <> [] ->
  exists m n,
    argmax_first l = Some (m, n) /\ In (m, n) l
    /\ (forall w k, In (w, k) l -> k <= n)
    /\ (forall w, In (w, n) l -> (m <= w)%Z).
Proof.
  induction l as [|[v c] l IH]; [congruence|]. intros [Hv Hl] _.
  cbn [argmax_first]. destruct l as [|p l].
  - exists v, c. simpl. repeat split; [now left | |].
    + intros w k [[= <- <-] | []]. lia.
    + intros w [[= <-] | []]. lia.
  - destruct (IH Hl ltac:(discriminate)) as (m & n & Hq & Hin & Hmax & Hmin).
    rewrite Hq. cbn [snd]. rewrite Forall_forall in Hv.
    destruct (Nat.leb_spec n c) as [Hle | Hlt].
    + exists v, c. repeat split; [now left | |].
      * intros w k [[= <- <-] | Hw]; [lia|]. specialize (Hmax _ _ Hw). lia.
      * intros w [[= <-] | Hw]; [lia|]. specialize (Hv _ Hw). simpl in Hv. lia.
    + exists m, n. repeat split; [now right | |].
      * intros w k [[= <- <-] | Hw]; [lia | now apply (Hmax w)].
      * intros w [[= <- Hc] | Hw]; [lia | now apply Hmin].
Qed.

Lemma np_unique_counts_nonempty (x : list Z) :
  x <> [] -> np_unique_counts x <> [].
Proof.
  destruct x as [|v x]; [congruence|]. intros _. simpl.
  destruct (np_unique_counts x) as [|[w n] l]; simpl; [discriminate|].
  destruct (v =? w)%Z; [discriminate|]. destruct (v <? w)%Z; discriminate.
Qed.

(** Every count of the table is the number of occurrences of its value. *)
Lemma counts_are_occurrences (x : list Z) (w : Z) (k : nat) :
  In (w, k) (np_unique_counts x) -> k = occurrences w x.
Proof.
  intros H. rewrite <- np_unique_counts_count. symmetry.
  apply in_count_of; [apply np_unique_counts_ascending | exact H].
Qed.

(** On numbers, the first entry with the greatest count is the smallest
    of the most frequent values. *)
Lemma mode_of_numbers (x : list Z) :
  x <> [] ->
  exists m,
    argmax_first (np_unique_counts x) = Some (m, occurrences m x)
    /\ In (m, occurrences m x) (np_unique_counts x)
    /\ is_mode x m.
Proof.
  intros Hx.
  pose proof (np_unique_counts_ascending x) as Hasc.
  destruct (argmax_first_spec _ Hasc (np_unique_counts_nonempty x Hx))
    as (m & n & Harg & Hin & Hmax & Hmin).
  pose proof (counts_are_occurrences _ _ _ Hin) as Hm. subst n.
  exists m. split; [exact Harg|]. split; [exact Hin|].
  assert (Hpos : occurrences m x <> 0).
  { intros E. destruct x as [|v x]; [congruence|].
    assert (Hv : count_of v (np_unique_counts (v :: x)) <> 0).
    { rewrite np_unique_counts_count. unfold occurrences. simpl.
      destruct (Z.eq_dec v v); [discriminate | congruence]. }
    specialize (Hmax _ _ (count_of_in _ _ Hv)). lia. }
  unfold is_mode. repeat split.
  - apply (count_occ_In Z.eq_dec). unfold occurrences in Hpos. lia.
  - intros y. destruct (Nat.eq_dec (occurrences y x) 0) as [E|E]; [lia|].
    rewrite <- np_unique_counts_count in E.
    rewrite <- (np_unique_counts_count y).
    exact (Hmax _ _ (count_of_in _ _ E)).
  - intros y Hy. apply Hmin.
    rewrite <- Hy, <- np_unique_counts_count. apply count_of_in.
    rewrite np_unique_counts_count. lia.
Qed.

Lemma is_mode_unique (x : list Z) (m m' : Z) :
  is_mode x m -> is_mode x m' -> m = m'.
Proof.
  intros (_ & Hmax & Hmin) (_ & Hmax' & Hmin').
  assert (E : occurrences m x = occurrences m' x).
  { pose proof (Hmax m'). pose proof (Hmax' m). lia. }
  pose proof (Hmin m' (eq_sym E)). pose proof (Hmin' m E). lia.
Qed.

Lemma argmax_first_In {A : Type} (l : list (A * nat)) (r : A * nat) :
  argmax_first l = Some r -> In r l.
Proof.
  revert r. induction l as [|p l IH]; intros r; cbn [argmax_first];
    [discriminate|].
  destruct (argmax_first l) as [q|].
  - destruct (snd q <=? snd p)%nat; intros [= <-]; [now left|].
    right. now apply IH.
  - intros [= <-]. now left.
Qed.

Lemma argmax_first_map {A B : Type} (f : A -> B) (l : list (A * nat)) :
  argmax_first (map (fun p => (f (fst p), snd p)) l)
  = option_map (fun p => (f (fst p), snd p)) (argmax_first l).
Proof.
  induction l as [|p l IH]; [reflexivity|].
  cbn [map argmax_first]. rewrite IH.
  destruct (argmax_first l) as [q|]; simpl; [|reflexivity].
  now destruct (snd q <=? snd p)%nat.
Qed.

(** A last entry whose count exceeds all the others is the first with
    the greatest count. *)
Lemma argmax_first_last {A : Type} (l : list (A * nat)) (a : A) (c : nat) :
  (forall p, In p l -> snd p < c) ->
  argmax_first (l ++ [(a, c)]) = Some (a, c).
Proof.
  induction l as [|p l IH]; intros H; [reflexivity|].
  cbn [app argmax_first]. rewrite IH by (intros q Hq; apply H; now right).
  cbn [snd]. pose proof (H p (or_introl eq_refl)) as Hp.
  destruct (Nat.leb_spec c (snd p)); [lia | reflexivity].
Qed.

(** A last entry that some other entry matches in count is never
    chosen. *)
Lemma argmax_first_front {A : Type} (l : list (A * nat)) (a : A) (c : nat) :
  (exists p, In p l /\ c <= snd p) ->
  argmax_first (l ++ [(a, c)]) = argmax_first l.
Proof.
  induction l as [|p l IH]; intros (p0 & Hin & Hle); [contradiction Hin|].
  cbn [app argmax_first].
  destruct (existsb (fun q => (c <=? snd q)%nat) l) eqn:E.
  - apply existsb_exists in E. destruct E as (q & Hq & Hc).
    apply Nat.leb_le in Hc. rewrite IH by (now exists q). reflexivity.
  - assert (Hall : forall q, In q l -> snd q < c).
    { intros q Hq. destruct (Nat.leb_spec c (snd q)) as [Hc|Hc]; [|exact Hc].
      assert (Ht : existsb (fun q => (c <=? snd q)%nat) l = true).
      { apply existsb_exists. exists q. split; [exact Hq|].
        now apply Nat.leb_le. }
      congruence. }
    rewrite (argmax_first_last l a c Hall). cbn [snd].
    assert (Hp : c <= snd p).
    { destruct Hin as [<-|Hin]; [exact Hle|].
      specialize (Hall _ Hin). lia. }
    destruct (Nat.leb_spec c (snd p)) as [_|C]; [|lia].
    destruct (argmax_first l) as [r|] eqn:Hr; [|reflexivity].
    pose proof (Hall _ (argmax_first_In _ _ Hr)) as Hlt.
    destruct (Nat.leb_spec (snd r) (snd p)); [reflexivity | lia].
Qed.

Lemma nan_count_exists (x : list Reading) :
  nan_count x <> 0 <-> existsb is_nan x = true.
Proof.
  unfold nan_count. induction x as [|r x IH]; simpl; [split; congruence|].
  destruct r as [z|]; simpl; [exact IH|]. split; [reflexivity | discriminate].
Qed.

Lemma bucket_length (x : list Reading) :
  List.length x = List.length (numbers x) + nan_count x.
Proof.
  unfold nan_count, numbers. induction x as [|r x IH]; [reflexivity|].
  destruct r as [z|]; simpl; rewrite IH; lia.
Qed.

Lemma mode_lambda_nonempty (policy : NanPolicy) (x : list Reading) :
  x <> [] -> mode_lambda policy x = scipy_mode policy x.
Proof.
  intros H. unfold mode_lambda. destruct x; [congruence | reflexivity].
Qed.

(** When nulls are counted like a value: a value that occurs at least as
    often as null and is the mode of the values is the result. *)
Lemma mode_values_prevail (x : list Reading) (m : Z) :
  is_mode (numbers x) m -> nan_count x <= occurrences m (numbers x) ->
  scipy_mode NanAsValue x = Some m.
Proof.
  intros Hm Hle.
  assert (Hne : numbers x <> []) by (intros E; destruct Hm as [Hin _];
    rewrite E in Hin; contradiction Hin).
  destruct (mode_of_numbers _ Hne) as (m' & Harg & Hin & Hm').
  pose proof (is_mode_unique _ _ _ Hm Hm') as <-.
  unfold scipy_mode, unique_with_counts.
  destruct (nan_count x) as [|n] eqn:En.
  - rewrite app_nil_r, argmax_first_map, Harg. reflexivity.
  - rewrite argmax_first_front.
    + rewrite argmax_first_map, Harg. reflexivity.
    + exists (Some m, occurrences m (numbers x)). split; [|exact Hle].
      apply in_map_iff. exists (m, occurrences m (numbers x)).
      split; [reflexivity | exact Hin].
Qed.

(** When null occurs more often than every value, the result is null
    under either reading of the policy. *)
Lemma mode_nulls_prevail (policy : NanPolicy) (x : list Reading) :
  nulls_prevail x -> scipy_mode policy x = None.
Proof.
  intros H.
  assert (Hn : nan_count x <> 0) by (specialize (H 0%Z); lia).
  unfold scipy_mode.
  assert (E : argmax_first (unique_with_counts x) = Some (None, nan_count x)).
  { unfold unique_with_counts. destruct (nan_count x) as [|n] eqn:En;
      [congruence|].
    apply argmax_first_last. intros p Hp. apply in_map_iff in Hp.
    destruct Hp as ([w k] & <- & Hin). simpl.
    rewrite (counts_are_occurrences _ _ _ Hin). specialize (H w). lia. }
  rewrite E. destruct policy; [reflexivity|].
  now destruct (existsb is_nan x).
Qed.

(** Without null in the bucket the two readings of the policy agree. *)
Lemma scipy_mode_no_nan (policy : NanPolicy) (x : list Reading) :
  existsb is_nan x = false -> scipy_mode policy x = scipy_mode NanAsValue x.
Proof.
  intros H. destruct policy; [reflexivity|]. unfold scipy_mode. now rewrite H.
Qed.

(** A result that is a value is the mode of the values. *)
Lemma mode_lambda_value (policy : NanPolicy) (x : list Reading) (m : Z) :
  mode_lambda policy x = Some m -> is_mode (numbers x) m.
Proof.
  intros H.
  assert (Hx : x <> []) by (intros ->; discriminate H).
  rewrite (mode_lambda_nonempty policy x Hx) in H.
  assert (Hv : scipy_mode NanAsValue x = Some m).
  { destruct policy; [exact H|]. unfold scipy_mode in H |- *.
    destruct (existsb is_nan x); [discriminate H | exact H]. }
  destruct (numbers x) as [|v l] eqn:En.
  - assert (Hp : nulls_prevail x).
    { intros w. unfold nulls_prevail. rewrite En.
      pose proof (bucket_length x) as Hl. rewrite En in Hl.
      destruct x; [congruence|]. simpl in *. unfold occurrences. simpl. lia. }
    rewrite (mode_nulls_prevail NanAsValue x Hp) in Hv. discriminate Hv.
  - rewrite <- En.
    destruct (mode_of_numbers (numbers x)) as (m' & _ & _ & Hm');
      [rewrite En; discriminate|].
    destruct (Nat.le_gt_cases (nan_count x) (occurrences m' (numbers x)))
      as [Hle|Hgt].
    + rewrite (mode_values_prevail x m' Hm' Hle) in Hv. now injection Hv as <-.
    + assert (Hp : nulls_prevail x).
      { intros w. destruct Hm' as (_ & Hmax & _). specialize (Hmax w). lia. }
      rewrite (mode_nulls_prevail NanAsValue x Hp) in Hv. discriminate Hv.
Qed.

(** On a bucket with values and without null the result is the mode of
    the values. *)
Lemma mode_lambda_is_mode (policy : NanPolicy) (x : list Reading) :
  x <> [] -> existsb is_nan x = false ->
  exists m, mode_lambda policy x = Some m /\ is_mode (numbers x) m.
Proof.
  intros Hx Hn.
  assert (Hc : nan_count x = 0).
  { destruct (Nat.eq_dec (nan_count x) 0) as [E|E]; [exact E|].
    apply nan_count_exists in E. congruence. }
  assert (Hne : numbers x <> []).
  { intros E. pose proof (bucket_length x) as Hl. rewrite E, Hc in Hl.
    destruct x; [congruence | discriminate Hl]. }
  destruct (mode_of_numbers _ Hne) as (m & _ & _ & Hm).
  exists m. split; [|exact Hm].
  rewrite (mode_lambda_nonempty policy x Hx), (scipy_mode_no_nan policy x Hn).
  apply mode_values_prevail; [exact Hm | lia].
Qed.

(** C5, as amended. Under either reading of how [sp_stats.mode] treats
    null: on an empty bucket the function appended for ["mode"] returns
    null; on a bucket with values and without null it returns a value
    of the bucket that no other value exceeds in frequency and that is
    the smallest of the values occurring that often; on a bucket in
    which null occurs more often than every value (a bucket of nulls
    only, for one) it returns null; and whenever it returns a value,
    that value is the smallest of the most frequent values of the
    bucket. *)
Theorem mode_lambda_smallest_most_frequent (policy : NanPolicy) :
  mode_lambda policy [] = None
  /\ (forall x, x <> [] -> existsb is_nan x = false ->
        exists m, mode_lambda policy x = Some m /\ is_mode (numbers x) m)
  /\ (forall x, nulls_prevail x -> mode_lambda policy x = None)
  /\ (forall x m, mode_lambda policy x = Some m -> is_mode (numbers x) m).
Proof.
  split; [reflexivity|]. split; [exact (mode_lambda_is_mode policy)|].
  split; [|exact (mode_lambda_value policy)].
  intros x H. unfold mode_lambda.
  destruct (0 <? List.length x)%nat; [|reflexivity].
  now apply mode_nulls_prevail.
Qed.

(** The claim of C5 on the bucket of two nulls and the value 1: the
    mode is null, although 1 is the most frequent value. *)
Lemma nulls_outnumbering_values_give_null :
  mode_lambda NanAsValue [None; None; Some 1%Z] = None
  /\ mode_lambda NanAsResult [None; None; Some 1%Z] = None
  /\ is_mode (numbers [None; None; Some 1%Z]) 1
  /\ ~ mode_spec NanAsValue
  /\ ~ mode_spec NanAsResult.
Proof.
  split; [reflexivity|]. split; [reflexivity|]. split.
  - unfold is_mode, occurrences. cbn [numbers flat_map app count_occ In].
    repeat split; [now left| |]; intros y;
      destruct (Z.eq_dec 1 y), (Z.eq_dec 1 1); lia.
  - split; intros [_ H];
      destruct (H [None; None; Some 1%Z]) as (m & Hm & _);
      try discriminate; discriminate Hm.
Qed.

End ModeFacts.

(* ================================================================== *)
(** ** [load_and_merge_excel]: which sheets are read *)
(* ================================================================== *)

Section LoadFacts.
Import Frame Aggregator.

Variable to_datetime : Cell -> option Z.

Local Abbreviation load := (load_and_merge_excel to_datetime).
Local Abbreviation step := (load_step to_datetime).

(** Once the counter is 2 it stays 2: every further sheet is skipped. *)
Lemma skip_from_two (wb : Workbook) (st : LoadState) :
  count st = 2 ->
  fold_left step wb st
  = {| merged_df := merged_df st;
       count := 2;
       col_map := col_map st;
       printed := printed st ++ map (fun s => SkippingSheet (sheet_name s)) wb |}.
Proof.
  revert st. induction wb as [|s wb IH]; intros st Hc; simpl.
  - rewrite app_nil_r. destruct st; simpl in *. now subst.
  - unfold load_step at 2. rewrite Hc. simpl.
    rewrite IH by reflexivity. simpl. now rewrite <- app_assoc.
Qed.

Lemma count_after_step (st : LoadState) (s : Sheet) :
  count st <> 2 -> count (step st s) = S (count st).
Proof.
  intros H. unfold load_step. destruct (Nat.eqb_spec (count st) 2); [easy|].
  now destruct (read_sheet to_datetime s (col_map st)).
Qed.

Lemma printed_after_step (st : LoadState) (s : Sheet) :
  count st <> 2 -> printed (step st s) = printed st.
Proof.
  intros H. unfold load_step. destruct (Nat.eqb_spec (count st) 2); [easy|].
  now destruct (read_sheet to_datetime s (col_map st)).
Qed.

(** Only the first two sheets are read; the third and every later sheet
    is skipped and announced. *)
Lemma load_reads_first_two (wb : Workbook) :
  merged_df (load wb) = merged_df (load (firstn 2 wb))
  /\ col_map (load wb) = col_map (load (firstn 2 wb))
  /\ printed (load wb)
     = map (fun s => SkippingSheet (sheet_name s)) (skipn 2 wb).
Proof.
  destruct wb as [|s1 [|s2 wb]]; [repeat split ..|].
  - unfold load_and_merge_excel. simpl fold_left.
    unfold load_step at 1. simpl. now destruct (read_sheet _ _ _).
  - unfold load_and_merge_excel. cbn [firstn skipn fold_left].
    set (st2 := step (step initial s1) s2).
    assert (Hc1 : count (step initial s1) = 1)
      by (rewrite count_after_step; simpl; congruence).
    assert (Hc : count st2 = 2).
    { unfold st2. rewrite count_after_step; rewrite Hc1; congruence. }
    assert (Hp : printed st2 = []).
    { unfold st2. rewrite printed_after_step by (rewrite Hc1; congruence).
      rewrite printed_after_step by (simpl; congruence). reflexivity. }
    rewrite (skip_from_two wb st2 Hc). simpl. now rewrite Hp.
Qed.

(** The canonical names put into the index are never empty. *)
Lemma rename_columns_values (device : string) (todo cols : list string)
  (cm : ColMap) :
  Spec.values_nonempty cm ->
  Spec.values_nonempty (snd (rename_columns device todo cols cm)).
Proof.
  revert cols cm. induction todo as [|c todo IH]; intros cols cm H; simpl.
  - exact H.
  - apply IH. clear IH. unfold Spec.values_nonempty in *.
    induction cm as [|[k v] cm IHcm]; simpl.
    + constructor; [|constructor]. unfold prefixed. simpl.
      destruct device; discriminate.
    + inversion H; subst.
      destruct (String.eqb _ k); constructor; auto.
      unfold prefixed. simpl. destruct device; discriminate.
Qed.

Lemma load_step_values (st : LoadState) (s : Sheet) :
  Spec.values_nonempty (col_map st) ->
  Spec.values_nonempty (col_map (step st s)).
Proof.
  intros H. unfold load_step. destruct (count st =? 2)%nat; [exact H|].
  unfold read_sheet.
  pose proof (rename_columns_values (device_name (sheet_name s))
                (sheet_columns s) (sheet_columns s) (col_map st) H) as Hr.
  destruct (rename_columns _ _ _ _). exact Hr.
Qed.

(** The canonical names in the index of every workbook are non-empty. *)
Lemma load_index_values_nonempty (wb : Workbook) :
  Spec.values_nonempty (col_map (load wb)).
Proof.
  unfold load_and_merge_excel.
  assert (H : Spec.values_nonempty (col_map initial)) by constructor.
  revert H. generalize initial. induction wb as [|s wb IH]; intros st H; simpl.
  - exact H.
  - apply IH. now apply load_step_values.
Qed.

End LoadFacts.

(* ================================================================== *)
(** ** The outer join *)
(* ================================================================== *)

Section JoinFacts.
Import Frame Aggregator Join.

Lemma key_eqb_spec (a b : Timestamp) : key_eqb a b = true <-> a = b.
Proof.
  destruct a as [x|], b as [y|]; simpl; try (split; congruence).
  rewrite Z.eqb_eq. split; congruence.
Qed.

Lemma key_eq_dec (a b : Timestamp) : {a = b} + {a <> b}.
Proof. decide equality. apply Z.eq_dec. Qed.

Lemma insert_key_In (x k : Timestamp) (l : list Timestamp) :
  In x (insert_key k l) <-> x = k \/ In x l.
Proof.
  induction l as [|h l IH]; simpl.
  - intuition congruence.
  - destruct (key_eqb k h) eqn:E.
    + apply key_eqb_spec in E. subst. simpl. intuition congruence.
    + destruct (key_ltb k h); simpl; [intuition congruence|].
      rewrite IH. intuition congruence.
Qed.

Lemma key_ltb_trans (a b c : Timestamp) :
  key_ltb a b = true -> key_ltb b c = true -> key_ltb a c = true.
Proof.
  destruct a as [x|], b as [y|], c as [z|]; simpl; try congruence.
  rewrite !Z.ltb_lt. lia.
Qed.

Lemma key_ltb_irrefl (a : Timestamp) : key_ltb a a = false.
Proof. destruct a as [x|]; simpl; [apply Z.ltb_irrefl | reflexivity]. Qed.

Lemma key_ltb_total (k h : Timestamp) :
  key_eqb k h = false -> key_ltb k h = false -> key_ltb h k = true.
Proof.
  destruct k as [x|], h as [y|]; simpl; try congruence.
  rewrite Z.eqb_neq, Z.ltb_ge, Z.ltb_lt. lia.
Qed.

Lemma insert_key_above (b k : Timestamp) (l : list Timestamp) :
  key_ltb b k = true -> Forall (fun y => key_ltb b y = true) l ->
  Forall (fun y => key_ltb b y = true) (insert_key k l).
Proof.
  intros Hb H. apply Forall_forall. intros x Hx.
  apply insert_key_In in Hx. destruct Hx as [->|Hx]; [exact Hb|].
  rewrite Forall_forall in H. now apply H.
Qed.

Lemma insert_key_sorted (k : Timestamp) (l : list Timestamp) :
  key_sorted l -> key_sorted (insert_key k l).
Proof.
  induction l as [|h l IH]; simpl.
  - intros _. split; [constructor | exact I].
  - intros [Hh Hl]. destruct (key_eqb k h) eqn:E; [now split|].
    destruct (key_ltb k h) eqn:L; simpl.
    + split; [|now split]. constructor; [exact L|].
      eapply Forall_impl; [|exact Hh]. simpl. intros y Hy.
      now apply (key_ltb_trans k h y).
    + split; [|now apply IH].
      apply insert_key_above; [now apply key_ltb_total | exact Hh].
Qed.

Lemma key_sorted_NoDup (l : list Timestamp) : key_sorted l -> NoDup l.
Proof.
  induction l as [|h l IH]; simpl; [constructor|].
  intros [Hh Hl]. constructor; [|now apply IH].
  intros Hin. rewrite Forall_forall in Hh. specialize (Hh h Hin).
  rewrite key_ltb_irrefl in Hh. discriminate.
Qed.

Lemma sorted_keys_sorted (l : list Timestamp) : key_sorted (sorted_keys l).
Proof.
  induction l as [|k l IH]; simpl; [exact I | now apply insert_key_sorted].
Qed.

Lemma sorted_keys_In (x : Timestamp) (l : list Timestamp) :
  In x (sorted_keys l) <-> In x l.
Proof.
  induction l as [|k l IH]; simpl; [reflexivity|].
  rewrite insert_key_In, IH. intuition congruence.
Qed.

Lemma rows_with_absent (k : Timestamp) (rs : list Row) :
  ~ In k (map fst rs) -> rows_with k rs = [].
Proof.
  induction rs as [|r rs IH]; simpl; [reflexivity|]. intros H.
  destruct (key_eqb (fst r) k) eqn:E.
  - apply key_eqb_spec in E. tauto.
  - apply IH. tauto.
Qed.

Lemma rows_with_present (k : Timestamp) (c : list Cell) (rs : list Row) :
  NoDup (map fst rs) -> In (k, c) rs -> rows_with k rs = [(k, c)].
Proof.
  induction rs as [|r rs IH]; simpl; [intros _ []|].
  intros Hnd Hin. inversion Hnd as [|? ? Hr Hrs]; subst.
  destruct Hin as [-> | Hin]; simpl.
  - rewrite (proj2 (key_eqb_spec k k) eq_refl).
    now rewrite (rows_with_absent k rs Hr).
  - destruct (key_eqb (fst r) k) eqn:E.
    + apply key_eqb_spec in E. exfalso. apply Hr. rewrite E.
      now apply (in_map fst rs (k, c)).
    + now apply IH.
Qed.

Lemma cells_at_present (t : Table) (k : Timestamp) (c : list Cell) :
  NoDup (keys t) -> In (k, c) (rows t) -> cells_at t k = c.
Proof.
  intros Hnd Hin. unfold cells_at.
  now rewrite (rows_with_present k c (rows t) Hnd Hin).
Qed.

Lemma cells_at_absent (t : Table) (k : Timestamp) :
  ~ In k (keys t) -> cells_at t k = nulls (List.length (columns t)).
Proof.
  intros H. unfold cells_at. now rewrite (rows_with_absent k (rows t) H).
Qed.

Lemma cells_at_length (t : Table) (k : Timestamp) :
  rectangular t -> List.length (cells_at t k) = List.length (columns t).
Proof.
  intros Hr. unfold cells_at.
  destruct (rows_with k (rows t)) as [|r rs] eqn:E.
  - unfold nulls. apply repeat_length.
  - assert (Hin : In r (rows t)).
    { assert (H : In r (rows_with k (rows t))) by (rewrite E; now left).
      unfold rows_with in H. now apply filter_In in H. }
    unfold rectangular in Hr. rewrite Forall_forall in Hr. now apply Hr.
Qed.

(** With distinct keys on both sides, a key of either side yields one
    merged row. *)
Lemma join_key_single (l r : Table) (k : Timestamp) :
  NoDup (keys l) -> NoDup (keys r) ->
  In k (keys l ++ keys r) ->
  join_key l r k = [(k, cells_at l k ++ cells_at r k)].
Proof.
  intros Hl Hr Hk. unfold join_key, cells_at.
  assert (shape : forall t, NoDup (keys t) ->
            (~ In k (keys t) /\ rows_with k (rows t) = [])
            \/ exists c, rows_with k (rows t) = [(k, c)]).
  { intros t Ht. destruct (in_dec key_eq_dec k (keys t)) as [Hin|Hout].
    - right. unfold keys in Hin. apply in_map_iff in Hin.
      destruct Hin as ([k' c] & Hfst & Hin). simpl in Hfst. subst k'.
      exists c. now apply rows_with_present.
    - left. split; [exact Hout | now apply rows_with_absent]. }
  destruct (shape l Hl) as [[Hol El] | [cl El]];
    destruct (shape r Hr) as [[Hor Er] | [cr Er]];
    rewrite El, Er; simpl; try reflexivity.
  apply in_app_or in Hk. tauto.
Qed.

Lemma flat_map_single {A B : Type} (f : A -> list B) (g : A -> B)
  (l : list A) :
  (forall x, In x l -> f x = [g x]) -> flat_map f l = map g l.
Proof.
  induction l as [|a l IH]; simpl; [reflexivity|]. intros H.
  rewrite (H a (or_introl eq_refl)), IH; [reflexivity|].
  intros x Hx. apply H. now right.
Qed.

Lemma merge_outer_rows (l r : Table) :
  NoDup (keys l) -> NoDup (keys r) ->
  rows (merge_outer l r)
  = map (fun k => (k, cells_at l k ++ cells_at r k))
        (sorted_keys (keys l ++ keys r)).
Proof.
  intros Hl Hr. unfold merge_outer; simpl.
  apply flat_map_single. intros k Hk.
  apply join_key_single; [exact Hl | exact Hr | now apply sorted_keys_In].
Qed.

Lemma merge_outer_keys (l r : Table) :
  NoDup (keys l) -> NoDup (keys r) ->
  keys (merge_outer l r) = sorted_keys (keys l ++ keys r).
Proof.
  intros Hl Hr. unfold keys at 1. rewrite (merge_outer_rows l r Hl Hr).
  rewrite map_map. simpl. apply map_id.
Qed.

Lemma suffix_overlap_disjoint (sfx : string) (mine other : list string) :
  (forall c, In c mine -> ~ In c other) ->
  suffix_overlap sfx mine other = mine.
Proof.
  intros H. unfold suffix_overlap.
  induction mine as [|c mine IH]; simpl; [reflexivity|].
  destruct (mem c other) eqn:E.
  - apply mem_spec in E. exfalso. apply (H c); [now left | exact E].
  - f_equal. apply IH. intros c' Hc'. apply H. now right.
Qed.

Lemma merge_outer_columns (l r : Table) :
  NoDup (columns l ++ columns r) ->
  columns (merge_outer l r) = columns l ++ columns r.
Proof.
  intros Hnd. unfold merge_outer; simpl.
  assert (Hd : forall c, In c (columns l) -> ~ In c (columns r)).
  { intros c Hl Hr. revert Hnd Hl Hr. generalize (columns l), (columns r).
    intros cl cr. induction cl as [|a cl IH]; simpl; [intros _ []|].
    intros Hnd [->|Hl] Hr; inversion Hnd as [|? ? Ha Hrest]; subst.
    - apply Ha. apply in_or_app. now right.
    - now apply IH. }
  rewrite !suffix_overlap_disjoint; [reflexivity | | exact Hd].
  intros c Hr Hl. exact (Hd c Hl Hr).
Qed.

Lemma row_get_app_l (cols cols' : list string) (cells cells' : list Cell)
  (c : string) :
  List.length cells = List.length cols -> In c cols ->
  row_get (cols ++ cols') (cells ++ cells') c = row_get cols cells c.
Proof.
  revert cells. induction cols as [|a cols IH]; intros cells Hlen Hin.
  - destruct Hin.
  - destruct cells as [|v cells]; [discriminate|]. simpl in *.
    destruct (String.eqb_spec c a) as [->|Hne]; [reflexivity|].
    destruct Hin as [->|Hin]; [congruence|].
    apply IH; [congruence | exact Hin].
Qed.

Lemma row_get_app_r (cols cols' : list string) (cells cells' : list Cell)
  (c : string) :
  List.length cells = List.length cols -> ~ In c cols ->
  row_get (cols ++ cols') (cells ++ cells') c = row_get cols' cells' c.
Proof.
  revert cells. induction cols as [|a cols IH]; intros cells Hlen Hout.
  - destruct cells; [reflexivity | discriminate].
  - destruct cells as [|v cells]; [discriminate|]. simpl in *.
    destruct (String.eqb_spec c a) as [->|Hne]; [tauto|].
    apply IH; [congruence | tauto].
Qed.

Lemma row_get_nulls (cols : list string) (c : string) :
  In c cols -> row_get cols (nulls (List.length cols)) c = Some Null.
Proof.
  induction cols as [|a cols IH]; simpl; [intros []|].
  destruct (String.eqb_spec c a) as [->|Hne]; [reflexivity|].
  intros [->|Hin]; [congruence | now apply IH].
Qed.

Lemma single_frame_invariant (f : Table) :
  NoDup (keys f) -> outer_join_invariant [f] f.
Proof.
  intros Hnd. unfold outer_join_invariant. repeat split.
  - intros Hk. exists f. split; [now left | exact Hk].
  - intros (g & [<-|[]] & Hk). exact Hk.
  - exact Hnd.
  - intros g k cells [<-|[]] Hin. exists cells. split; [exact Hin | reflexivity].
  - intros g k row [<-|[]] Hin Hout. exfalso. apply Hout.
    now apply (in_map fst (rows f) (k, row)).
Qed.

Lemma merged_row_shape (l r : Table) (k : Timestamp) (row : list Cell) :
  NoDup (keys l) -> NoDup (keys r) ->
  In (k, row) (rows (merge_outer l r)) ->
  row = cells_at l k ++ cells_at r k.
Proof.
  intros Hl Hr. rewrite (merge_outer_rows l r Hl Hr), in_map_iff.
  intros (k' & [= <- <-] & _). reflexivity.
Qed.

Lemma merged_row_present (l r : Table) (k : Timestamp) :
  NoDup (keys l) -> NoDup (keys r) ->
  In k (keys l ++ keys r) ->
  In (k, cells_at l k ++ cells_at r k) (rows (merge_outer l r)).
Proof.
  intros Hl Hr Hk. rewrite (merge_outer_rows l r Hl Hr).
  apply (in_map (fun k => (k, cells_at l k ++ cells_at r k))).
  now apply sorted_keys_In.
Qed.

Lemma NoDup_app_disjoint {A : Type} (l l' : list A) (x : A) :
  NoDup (l ++ l') -> In x l -> ~ In x l'.
Proof.
  induction l as [|a l IH]; simpl; [intros _ []|].
  intros Hnd [->|Hin] Hx; inversion Hnd as [|? ? Ha Hrest]; subst.
  - apply Ha. apply in_or_app. now right.
  - exact (IH Hrest Hin Hx).
Qed.

(** The outer join of two frames with distinct keys and disjoint columns
    satisfies the invariant. *)
Lemma merge_outer_invariant (l r : Table) :
  rectangular l -> rectangular r ->
  NoDup (keys l) -> NoDup (keys r) ->
  NoDup (columns l ++ columns r) ->
  outer_join_invariant [l; r] (merge_outer l r).
Proof.
  intros Rl Rr Hl Hr Hc. unfold outer_join_invariant.
  rewrite (merge_outer_keys l r Hl Hr), (merge_outer_columns l r Hc).
  repeat split.
  - rewrite sorted_keys_In. intros Hk. apply in_app_or in Hk.
    destruct Hk as [Hk|Hk]; [exists l | exists r]; simpl; tauto.
  - rewrite sorted_keys_In. intros (f & [<-|[<-|[]]] & Hk);
      apply in_or_app; tauto.
  - apply key_sorted_NoDup, sorted_keys_sorted.
  - intros f k cells Hf Hin.
    exists (cells_at l k ++ cells_at r k).
    assert (Hk : In k (keys f)) by exact (in_map fst (rows f) (k, cells) Hin).
    destruct Hf as [<-|[<-|[]]].
    + split; [apply merged_row_present; auto; apply in_or_app; tauto|].
      intros c Hcl. rewrite (cells_at_present l k cells Hl Hin).
      apply row_get_app_l; [|exact Hcl].
      unfold rectangular in Rl. rewrite Forall_forall in Rl.
      exact (Rl _ Hin).
    + split; [apply merged_row_present; auto; apply in_or_app; tauto|].
      intros c Hcr. rewrite (cells_at_present r k cells Hr Hin).
      apply row_get_app_r; [now apply cells_at_length|].
      intros Hcl. exact (NoDup_app_disjoint _ _ c Hc Hcl Hcr).
  - intros f k row Hf Hin Hout c Hcf.
    rewrite (merged_row_shape l r k row Hl Hr Hin).
    destruct Hf as [<-|[<-|[]]].
    + rewrite (cells_at_absent l k Hout).
      rewrite row_get_app_l;
        [now apply row_get_nulls | apply repeat_length | exact Hcf].
    + rewrite (cells_at_absent r k Hout).
      rewrite row_get_app_r; [now apply row_get_nulls | now apply cells_at_length|].
      intros Hcl. exact (NoDup_app_disjoint _ _ c Hc Hcl Hcf).
Qed.

Lemma rename_columns_frame (device : string) (todo cols : list string)
  (cm cm' : ColMap) :
  fst (rename_columns device todo cols cm)
  = fst (rename_columns device todo cols cm').
Proof.
  revert cols cm cm'. induction todo as [|c todo IH]; intros; simpl;
    [reflexivity | apply IH].
Qed.

Lemma read_sheet_frame (to_datetime : Cell -> option Z) (s : Sheet)
  (cm : ColMap) :
  fst (read_sheet to_datetime s cm) = sheet_frame to_datetime s.
Proof.
  unfold sheet_frame, read_sheet.
  pose proof (rename_columns_frame (device_name (sheet_name s))
                (sheet_columns s) (sheet_columns s) cm []) as H.
  destruct (rename_columns _ _ _ cm), (rename_columns _ _ _ []).
  simpl in *. now subst.
Qed.

(** What [load_and_merge_excel] leaves in [merged_df]. *)
Lemma load_merged (to_datetime : Cell -> option Z) (wb : Workbook) :
  merged_df (load_and_merge_excel to_datetime wb)
  = match processed_frames to_datetime wb with
    | [] => None
    | [f] => Some f
    | f :: g :: _ => Some (merge_outer f g)
    end.
Proof.
  rewrite (proj1 (load_reads_first_two to_datetime wb)).
  unfold processed_frames.
  destruct wb as [|s1 [|s2 wb]]; cbn [firstn map]; [reflexivity| |].
  - unfold load_and_merge_excel. simpl fold_left. unfold load_step. simpl.
    rewrite <- (read_sheet_frame to_datetime s1 []).
    now destruct (read_sheet to_datetime s1 []).
  - unfold load_and_merge_excel. simpl fold_left.
    unfold load_step at 2. simpl.
    rewrite <- (read_sheet_frame to_datetime s1 []).
    destruct (read_sheet to_datetime s1 []) as [f cm1]. simpl.
    unfold load_step. simpl.
    rewrite <- (read_sheet_frame to_datetime s2 cm1).
    now destruct (read_sheet to_datetime s2 cm1).
Qed.

(** C8. For a workbook with at least one sheet whose processed sheets
    have pairwise distinct timestamps each and column names that do not
    repeat among them, [load_and_merge_excel] leaves a merged table with
    the outer-join invariant: its timestamps are those of the processed
    sheets taken together, each occurs in one row only, every row of
    every processed sheet is found under its timestamp with its cells
    unchanged, and the columns of a sheet that lacks a timestamp are
    null in that row. *)
Theorem merged_table_outer_join_invariant (to_datetime : Cell -> option Z)
  (wb : Workbook) :
  wb <> [] -> well_formed (processed_frames to_datetime wb) ->
  exists T,
    merged_df (load_and_merge_excel to_datetime wb) = Some T
    /\ outer_join_invariant (processed_frames to_datetime wb) T.
Proof.
  intros Hwb (Hrect & Hkeys & Hcols). rewrite load_merged.
  unfold processed_frames in *.
  destruct wb as [|s1 [|s2 wb]]; [congruence | |]; cbn [firstn map] in *.
  - exists (sheet_frame to_datetime s1). split; [reflexivity|].
    apply single_frame_invariant. now inversion Hkeys.
  - exists (merge_outer (sheet_frame to_datetime s1) (sheet_frame to_datetime s2)).
    split; [reflexivity|].
    inversion Hrect as [|? ? R1 Hrect']; subst.
    inversion Hrect' as [|? ? R2 _]; subst.
    inversion Hkeys as [|? ? K1 Hkeys']; subst.
    inversion Hkeys' as [|? ? K2 _]; subst.
    simpl in Hcols. rewrite app_nil_r in Hcols.
    now apply merge_outer_invariant.
Qed.

End JoinFacts.

(* ================================================================== *)
(** ** Concrete workbooks, frames and requests *)
(* ================================================================== *)

Section Settled.
Import Frame Aggregator Spec Window Selection Join Examples.

(** C1. On a workbook of four sheets the loop skips the fourth sheet as
    well as the third: both are announced as skipped, the merged table
    has the columns of the first two sheets only, and the index knows no
    column of the fourth sheet. *)
Theorem fourth_sheet_is_skipped_like_the_third :
  printed (load_and_merge_excel parse four_sheets)
  = [SkippingSheet "Input C_1"; SkippingSheet "Input D_1"]
  /\ option_map columns (merged_df (load_and_merge_excel parse four_sheets))
     = Some ["A_temp"; "A_pressure"; "B_temp"]
  /\ col_map (load_and_merge_excel parse four_sheets)
     = [("atemp", "A_temp"); ("apressure", "A_pressure"); ("btemp", "B_temp")]
  /\ merged_df (load_and_merge_excel parse four_sheets)
     = merged_df (load_and_merge_excel parse [sheet_A; sheet_B]).
Proof. repeat split. Qed.

Lemma empty_workbook_gives_no_table :
  ~ empty_workbook_gives_empty_table parse.
Proof. intros (t & H & _). discriminate H. Qed.

(** C2, as amended. For a workbook without sheets [load_and_merge_excel]
    leaves no table at all ([None]) and the next stage of [run],
    [apply_time_filters], raises [TypeError] whatever the bounds.
    Reading a sheet never raises: it keeps every row in its place, and a
    row whose [Date Time] cell does not parse gets the null timestamp;
    a workbook of one sheet yields that frame as the merged table. *)
Theorem empty_workbook_none_and_unparsed_times_null
  (to_datetime : Cell -> option Z) :
  merged_df (load_and_merge_excel to_datetime []) = None
  /\ (forall timefrom timeto,
        run_load_filter to_datetime [] timefrom timeto = Raise TypeError)
  /\ (forall (s : Sheet) (cm : ColMap),
        List.length (rows (fst (read_sheet to_datetime s cm)))
        = List.length (sheet_rows s)
        /\ forall i raw cells,
             nth_error (sheet_rows s) i = Some (raw, cells) ->
             nth_error (rows (fst (read_sheet to_datetime s cm))) i
             = Some (to_datetime raw, cells)
             /\ (to_datetime raw = None ->
                 nth_error (rows (fst (read_sheet to_datetime s cm))) i
                 = Some (None, cells)))
  /\ (forall s : Sheet,
        merged_df (load_and_merge_excel to_datetime [s])
        = Some (fst (read_sheet to_datetime s []))).
Proof.
  split; [reflexivity|]. split; [|split].
  - intros timefrom timeto. unfold run_load_filter, apply_time_filters.
    simpl. destruct timefrom as [lo|], timeto as [hi|]; simpl;
      try destruct (lo =? 0)%Z; try destruct (hi =? 0)%Z; reflexivity.
  - intros s cm.
    assert (E : rows (fst (read_sheet to_datetime s cm))
                = map (fun r => (to_datetime (fst r), snd r)) (sheet_rows s)).
    { unfold read_sheet. now destruct (rename_columns _ _ _ _). }
    split; [rewrite E; apply length_map|].
    intros i raw cells Hi. rewrite E.
    assert (Hn : nth_error
                   (map (fun r => (to_datetime (fst r), snd r)) (sheet_rows s)) i
                 = Some (to_datetime raw, cells))
      by (rewrite nth_error_map, Hi; reflexivity).
    split; [exact Hn | intros Hp; rewrite <- Hp; exact Hn].
  - intros s. unfold load_and_merge_excel. simpl. unfold load_step. simpl.
    now destruct (read_sheet to_datetime s []).
Qed.

(** C3. [map_columns] resolves each request to the canonical name of the
    first entry of the index, in insertion order, whose key contains the
    normalized request as a substring; the names come back in the order
    of the requests, and a request that no key contains is left out and
    reported by a warning.  This holds over every index whose canonical
    names are not empty, hence over the index of every workbook; with
    the keys ["devatemp"] and ["temp"] entered in that order, the request
    ["temp"] resolves to the name behind ["devatemp"]. *)
Theorem map_columns_first_containing_key :
  (forall col_map requested_cols,
     values_nonempty col_map -> map_columns_spec col_map requested_cols)
  /\ (forall to_datetime wb requested_cols,
        map_columns_spec (col_map (load_and_merge_excel to_datetime wb))
          requested_cols)
  /\ map_columns example_index ["temp"; "humidity"]
     = (["devA_temp"], [ColumnNotFound "humidity"]).
Proof.
  split; [exact map_columns_resolves|]. split; [|reflexivity].
  intros to_datetime wb requested_cols.
  apply map_columns_resolves, load_index_values_nonempty.
Qed.

Lemma example_index_values : values_nonempty example_index.
Proof. repeat constructor; discriminate. Qed.

Lemma map_columns_first_containing_key_witness :
  values_nonempty example_index
  /\ map_columns_spec example_index ["temp"; "humidity"].
Proof.
  split; [exact example_index_values|].
  exact (proj1 map_columns_first_containing_key example_index
           ["temp"; "humidity"] example_index_values).
Defined.

(** A label of a list of functions is the name of a named function of
    the list, or starts with [<]. *)
Lemma mangle_origin (fs : list AggFunc) (i : nat) (l : string) :
  In l (mangle i fs) ->
  (exists n, In (ByName n) fs /\ l = n) \/ PyStr.starts_with "<" l = true.
Proof.
  revert i. induction fs as [|[n|] fs IH]; intros i; simpl; [intros []| |].
  - intros [<-|H]; [left; exists n; split; [now left | reflexivity]|].
    destruct (IH _ H) as [(n' & Hn & ->)|Hs]; [|now right].
    left. exists n'. split; [now right | reflexivity].
  - intros [<-|H]; [now right|].
    destruct (IH _ H) as [(n' & Hn & ->)|Hs]; [|now right].
    left. exists n'. split; [now right | reflexivity].
Qed.

Lemma func_labels_origin (fs : list AggFunc) (l : string) :
  In l (func_labels fs) ->
  (exists n, In (ByName n) fs /\ l = n) \/ PyStr.starts_with "<" l = true.
Proof.
  unfold func_labels. destruct (List.length fs <=? 1)%nat.
  - intros H. apply in_map_iff in H. destruct H as ([n|] & <- & Hin).
    + left. exists n. now split.
    + now right.
  - apply mangle_origin.
Qed.

Lemma funcs_of_stats_names (stats : list string) (n : string) :
  In (ByName n) (funcs_of_stats stats) -> In n ["min"; "max"; "mean"; "median"].
Proof.
  unfold funcs_of_stats. intros H. apply in_flat_map in H.
  destruct H as (s & _ & H). unfold funcs_of_stat in H.
  destruct (String.eqb s "min"); [destruct H as [[= <-]|[]]; simpl; tauto|].
  destruct (String.eqb s "max"); [destruct H as [[= <-]|[]]; simpl; tauto|].
  destruct (String.eqb s "mean"); [destruct H as [[= <-]|[]]; simpl; tauto|].
  destruct (String.eqb s "median"); [destruct H as [[= <-]|[]]; simpl; tauto|].
  destruct (String.eqb s "mode"); [destruct H as [H|[]]; discriminate H|].
  contradiction H.
Qed.

(** C4. With the statistics [mean] and [mode] requested for the numeric
    column [A_temp], the column of the mode is named [A_temp_<lambda_0>],
    after the anonymous function as pandas renames it in a list of
    several functions, and no column is named [A_temp_mode]; whatever
    the request, no statistic is labelled [mode].  With [mode] alone the
    column keeps the name [A_temp]. *)
Theorem mode_column_is_named_after_the_lambda :
  aggregate_data_names (fun _ => true) ["mean"; "mode"] ["A_temp"]
  = ["Date Time"; "A_temp_mean"; "A_temp_<lambda_0>"]
  /\ ~ In "A_temp_mode"
        (aggregate_data_names (fun _ => true) ["mean"; "mode"] ["A_temp"])
  /\ aggregate_data_names (fun _ => true) ["mode"] ["A_temp"]
     = ["Date Time"; "A_temp"]
  /\ (forall stats, ~ In "mode" (func_labels (funcs_of_stats stats))).
Proof.
  split; [reflexivity|]. split; [|split; [reflexivity|]].
  - simpl. intros [H|[H|[H|[]]]]; discriminate H.
  - intros stats H. destruct (func_labels_origin _ _ H) as [(n & Hn & E)|Hs].
    + subst n. apply funcs_of_stats_names in Hn.
      destruct Hn as [E|[E|[E|[E|[]]]]]; discriminate E.
    + discriminate Hs.
Qed.

(** With at most one requested statistic every output column keeps the
    name of its column. *)
Lemma flatten_single (stats : list string) (labels : list Label) :
  List.length stats <= 1 -> flatten stats labels = map label_col labels.
Proof.
  intros H. unfold flatten. apply map_ext. intros [c|c s]; [reflexivity|].
  simpl. destruct (Nat.ltb_spec 1 (List.length stats)); [lia | reflexivity].
Qed.

(** With several requested statistics a pair is named [<column>_<label>];
    the label of [min], [max], [mean] and [median] is the statistic
    itself. *)
Lemma flatten_several (stats : list string) (c s : string) :
  1 < List.length stats ->
  flatten stats [Pair c s] = [(c ++ "_" ++ s)%string].
Proof.
  intros H. unfold flatten. simpl.
  destruct (Nat.ltb_spec 1 (List.length stats)); [reflexivity | lia].
Qed.

Lemma named_statistic_label (s : string) :
  In s ["min"; "max"; "mean"; "median"] ->
  func_labels (funcs_of_stat s) = [s].
Proof.
  intros [<-|[<-|[<-|[<-|[]]]]]; reflexivity.
Qed.

(** The claim of C6 read for every pair of bounds. *)
Lemma zero_lower_bound_keeps_earlier_row :
  ~ (forall timefrom timeto, filters_window timefrom timeto).
Proof.
  intros H. specialize (H (Some 0%Z) None old_readings).
  vm_compute in H. discriminate H.
Qed.

Lemma representable_in_range (z : Z) :
  (ms_min <= z <= ms_max)%Z -> representable (Some z).
Proof. intros H w [= <-]. exact H. Defined.

Lemma apply_time_filters_inclusive_window_witness :
  (Some 1000%Z <> Some 0%Z /\ Some 2000%Z <> Some 0%Z
   /\ representable (Some 1000%Z) /\ representable (Some 2000%Z))
  /\ filters_window (Some 1000%Z) (Some 2000%Z)
  /\ keeps_boundary_rows (Some 1000%Z) (Some 2000%Z).
Proof.
  assert (H1 : Some 1000%Z <> Some 0%Z) by discriminate.
  assert (H2 : Some 2000%Z <> Some 0%Z) by discriminate.
  assert (R1 : representable (Some 1000%Z))
    by (apply representable_in_range; unfold ms_min, ms_max; lia).
  assert (R2 : representable (Some 2000%Z))
    by (apply representable_in_range; unfold ms_min, ms_max; lia).
  split; [exact (conj H1 (conj H2 (conj R1 R2)))|].
  exact (apply_time_filters_inclusive_window (Some 1000%Z) (Some 2000%Z)
           H1 H2 R1 R2).
Defined.


Lemma three_sheets_well_formed :
  well_formed (processed_frames parse three_sheets).
Proof.
  unfold well_formed. cbv.
  repeat split; repeat constructor; simpl; intuition congruence.
Qed.

Lemma merged_table_outer_join_invariant_witness :
  three_sheets <> []
  /\ well_formed (processed_frames parse three_sheets)
  /\ exists T,
       merged_df (load_and_merge_excel parse three_sheets) = Some T
       /\ outer_join_invariant (processed_frames parse three_sheets) T.
Proof.
  assert (Hne : three_sheets <> []) by discriminate.
  split; [exact Hne|]. split; [exact three_sheets_well_formed|].
  exact (merged_table_outer_join_invariant parse three_sheets Hne
           three_sheets_well_formed).
Defined.

(** The merged table of the three-sheet workbook, row by row; the row
    without a timestamp comes first. *)
Example three_sheets_merged :
  merged_df (load_and_merge_excel parse three_sheets)
  = Some {| columns := ["A_temp"; "A_pressure"; "B_temp"];
            rows := [(None, [Null; Null; Number 8]);
                     (Some 1000%Z, [Number 10; Number 100; Null]);
                     (Some 2000%Z, [Number 20; Number 200; Number 7]);
                     (Some 3000%Z, [Null; Null; Number 9])] |}.
Proof. reflexivity. Qed.

(** The scenario of three sheets with the statistics [mean] and [max]:
    the device names, the index and the header of the result. *)
Example scenario_device_names :
  map (fun s => device_name (sheet_name s)) three_sheets = ["A"; "B"; "C"].
Proof. reflexivity. Qed.

Example scenario_header :
  option_map (fun t => aggregate_data_names (fun _ => true) ["mean"; "max"]
                         (columns t))
    (merged_df (load_and_merge_excel parse three_sheets))
  = Some ["Date Time"; "A_temp_mean"; "A_temp_max"; "A_pressure_mean";
          "A_pressure_max"; "B_temp_mean"; "B_temp_max"].
Proof. reflexivity. Qed.

Example device_name_strips :
  device_name "Input  Boiler 7 _2024_raw" = "Boiler 7 _2024"
  /\ device_name "Pump" = "Pump".
Proof. split; reflexivity. Qed.

Example mode_of_ties :
  mode_lambda NanAsValue [Some 3; Some 1; Some 3; Some 1; Some 2]%Z = Some 1%Z
  /\ mode_lambda NanAsResult [Some 3; Some 1; Some 3; Some 1; Some 2]%Z
     = Some 1%Z.
Proof. split; reflexivity. Qed.

End Settled.

(* ================================================================== *)
(** ** Further properties: the loading loop and the index *)
(* ================================================================== *)

Section IndexFacts.
Import PyStr Frame Aggregator Spec Further.

Variable to_datetime : Cell -> option Z.

Local Abbreviation load := (load_and_merge_excel to_datetime).
Local Abbreviation step := (load_step to_datetime).

(** X1. Whatever the workbook, the loop reads two sheets at most: the
    counter ends at the smaller of 2 and the number of sheets, the merged
    table and the index are those of the workbook cut after its second
    sheet, and one line is printed for each sheet from the third on, in
    order, and nothing else. *)
Theorem load_reads_at_most_two_sheets (wb : Workbook) :
  count (load wb) = Nat.min (List.length wb) 2
  /\ merged_df (load wb) = merged_df (load (firstn 2 wb))
  /\ col_map (load wb) = col_map (load (firstn 2 wb))
  /\ printed (load wb) = map (fun s => SkippingSheet (sheet_name s)) (skipn 2 wb).
Proof.
  split; [|exact (load_reads_first_two to_datetime wb)].
  destruct wb as [|s1 [|s2 wb]]; [reflexivity | |].
  - unfold load_and_merge_excel. simpl fold_left.
    now rewrite count_after_step by (simpl; congruence).
  - unfold load_and_merge_excel. cbn [fold_left].
    assert (Hc1 : count (step initial s1) = 1)
      by (rewrite count_after_step; simpl; congruence).
    assert (Hc : count (step (step initial s1) s2) = 2)
      by (rewrite count_after_step; rewrite Hc1; congruence).
    rewrite (skip_from_two to_datetime wb _ Hc). simpl.
    now destruct (List.length wb).
Qed.

Lemma re_sub_non_az_app (a b : string) :
  re_sub_non_az (a ++ b) = (re_sub_non_az a ++ re_sub_non_az b)%string.
Proof.
  induction a as [|c a IH]; simpl; [reflexivity|].
  destruct (is_az c); simpl; now rewrite IH.
Qed.

Lemma lower_app (a b : string) : lower (a ++ b) = (lower a ++ lower b)%string.
Proof. induction a as [|c a IH]; simpl; [reflexivity | now rewrite IH]. Qed.

Lemma normalize_app (a b : string) :
  normalize_col_name (a ++ b)
  = (normalize_col_name a ++ normalize_col_name b)%string.
Proof.
  unfold normalize_col_name. now rewrite lower_app, re_sub_non_az_app.
Qed.

Lemma normalize_prefixed (device col : string) :
  normalize_col_name (prefixed device col)
  = (normalize_col_name device ++ normalize_col_name col)%string.
Proof.
  unfold prefixed. rewrite !normalize_app. reflexivity.
Qed.

Lemma dict_set_entries {V : Type} (k k' : string) (v v' : V) (d : Dict V) :
  In (k', v') (dict_set k v d) -> (k', v') = (k, v) \/ In (k', v') d.
Proof.
  induction d as [|[k0 v0] d IH]; simpl.
  - intros [H|[]]. now left.
  - destruct (String.eqb_spec k k0) as [->|Hne]; simpl.
    + intros [H|H]; [now left | right; now right].
    + intros [H|H]; [right; now left|].
      destruct (IH H) as [E|E]; [now left | right; now right].
Qed.

Lemma dict_set_keys {V : Type} (k k' : string) (v : V) (d : Dict V) :
  In k' (map fst (dict_set k v d)) <-> k' = k \/ In k' (map fst d).
Proof.
  induction d as [|[k0 v0] d IH]; simpl.
  - intuition congruence.
  - destruct (String.eqb_spec k k0) as [->|Hne]; simpl.
    + intuition congruence.
    + rewrite IH. intuition congruence.
Qed.

Lemma dict_set_NoDup {V : Type} (k : string) (v : V) (d : Dict V) :
  NoDup (map fst d) -> NoDup (map fst (dict_set k v d)).
Proof.
  induction d as [|[k0 v0] d IH]; simpl; intros H.
  - constructor; [intros [] | constructor].
  - inversion H as [|? ? Hk0 Hd]; subst.
    destruct (String.eqb_spec k k0) as [->|Hne]; simpl.
    + now constructor.
    + constructor; [|now apply IH].
      rewrite dict_set_keys. intros [E|E]; [congruence | contradiction].
Qed.

Lemma rename_columns_invariant (device : string) (todo cols : list string)
  (cm : ColMap) :
  index_invariant cm ->
  index_invariant (snd (rename_columns device todo cols cm)).
Proof.
  revert cols cm. induction todo as [|c todo IH]; intros cols cm H; simpl.
  - exact H.
  - apply IH. destruct H as [Hnd Hkv]. split.
    + now apply dict_set_NoDup.
    + intros k v Hin. apply dict_set_entries in Hin.
      destruct Hin as [[= -> ->] | Hin]; [reflexivity | now apply Hkv].
Qed.

Lemma load_step_invariant (st : LoadState) (s : Sheet) :
  index_invariant (col_map st) -> index_invariant (col_map (step st s)).
Proof.
  intros H. unfold load_step. destruct (count st =? 2)%nat; [exact H|].
  unfold read_sheet.
  pose proof (rename_columns_invariant (device_name (sheet_name s))
                (sheet_columns s) (sheet_columns s) (col_map st) H) as Hr.
  destruct (rename_columns _ _ _ _). exact Hr.
Qed.

Lemma load_invariant (wb : Workbook) : index_invariant (col_map (load wb)).
Proof.
  unfold load_and_merge_excel.
  assert (H : index_invariant (col_map initial))
    by (split; [constructor | intros k v []]).
  revert H. generalize initial. induction wb as [|s wb IH]; intros st H; simpl.
  - exact H.
  - apply IH. now apply load_step_invariant.
Qed.

(** X2. In the index of every workbook no key occurs twice, every key is
    the normalized form of the canonical name stored under it and so
    consists of the letters [a-z] only, and no canonical name is empty. *)
Theorem index_keys_are_normalized_names (wb : Workbook) :
  NoDup (map fst (col_map (load wb)))
  /\ (forall k v, In (k, v) (col_map (load wb)) ->
        k = normalize_col_name v
        /\ str_forall is_az k = true
        /\ v <> EmptyString).
Proof.
  destruct (load_invariant wb) as [Hnd Hkv]. split; [exact Hnd|].
  intros k v Hin. pose proof (Hkv k v Hin) as Hk. split; [exact Hk|]. split.
  - rewrite Hk. apply normalize_all_az.
  - pose proof (load_index_values_nonempty to_datetime wb) as Hne.
    unfold values_nonempty in Hne. rewrite Forall_forall in Hne.
    exact (Hne (k, v) Hin).
Qed.

End IndexFacts.

Section ResolutionFacts.
Import PyStr Frame Aggregator Spec Examples Further.

Variable to_datetime : Cell -> option Z.

Local Abbreviation load := (load_and_merge_excel to_datetime).
Local Abbreviation step := (load_step to_datetime).

Lemma rename_columns_keys_kept (device : string) (todo cols : list string)
  (cm : ColMap) (k : string) :
  In k (map fst cm) ->
  In k (map fst (snd (rename_columns device todo cols cm))).
Proof.
  revert cols cm. induction todo as [|c todo IH]; intros cols cm H; simpl.
  - exact H.
  - apply IH. apply dict_set_keys. now right.
Qed.

Lemma rename_columns_keys_new (device : string) (todo cols : list string)
  (cm : ColMap) (c : string) :
  In c todo ->
  In (normalize_col_name (prefixed device c))
     (map fst (snd (rename_columns device todo cols cm))).
Proof.
  revert cols cm. induction todo as [|c0 todo IH]; intros cols cm; simpl.
  - intros [].
  - intros [->|H]; [|now apply IH].
    apply rename_columns_keys_kept, dict_set_keys. now left.
Qed.

Lemma step_keys_kept (st : LoadState) (s : Sheet) (k : string) :
  In k (map fst (col_map st)) -> In k (map fst (col_map (step st s))).
Proof.
  intros H. unfold load_step. destruct (count st =? 2)%nat; [exact H|].
  unfold read_sheet.
  pose proof (rename_columns_keys_kept (device_name (sheet_name s))
                (sheet_columns s) (sheet_columns s) (col_map st) k H) as Hr.
  destruct (rename_columns _ _ _ _). exact Hr.
Qed.

Lemma step_keys_new (st : LoadState) (s : Sheet) (c : string) :
  count st <> 2 -> In c (sheet_columns s) ->
  In (normalize_col_name (prefixed (device_name (sheet_name s)) c))
     (map fst (col_map (step st s))).
Proof.
  intros Hc H. unfold load_step.
  destruct (Nat.eqb_spec (count st) 2); [contradiction|].
  unfold read_sheet.
  pose proof (rename_columns_keys_new (device_name (sheet_name s))
                (sheet_columns s) (sheet_columns s) (col_map st) c H) as Hr.
  destruct (rename_columns _ _ _ _). exact Hr.
Qed.

(** The key of every column of a sheet that is read is in the index. *)
Lemma processed_column_key (wb : Workbook) (s : Sheet) (c : string) :
  In s (firstn 2 wb) -> In c (sheet_columns s) ->
  In (normalize_col_name (prefixed (device_name (sheet_name s)) c))
     (map fst (col_map (load wb))).
Proof.
  intros Hs Hc.
  rewrite (proj1 (proj2 (load_reads_first_two to_datetime wb))).
  assert (Hc1 : forall s1, count (step initial s1) <> 2)
    by (intros s1; rewrite count_after_step; simpl; congruence).
  destruct wb as [|s1 [|s2 wb]]; cbn [firstn] in *.
  - destruct Hs.
  - destruct Hs as [<-|[]]. unfold load_and_merge_excel. simpl fold_left.
    apply step_keys_new; [simpl; congruence | exact Hc].
  - unfold load_and_merge_excel. cbn [fold_left].
    destruct Hs as [<-|[<-|[]]].
    + apply step_keys_kept, step_keys_new; [simpl; congruence | exact Hc].
    + apply step_keys_new; [apply Hc1 | exact Hc].
Qed.

Lemma contained_request_resolves (cm : ColMap) (req k : string) :
  values_nonempty cm ->
  In k (map fst cm) -> Substring (normalize_col_name req) k ->
  resolves_to_a_column cm req.
Proof.
  intros Hne Hk Hsub. unfold resolves_to_a_column.
  apply in_map_iff in Hk. destruct Hk as ([k0 v0] & Hfst & Hin).
  simpl in Hfst. subst k0.
  destruct (find (fun kv => contains (normalize_col_name req) (fst kv)) cm)
    as [[k1 v1]|] eqn:E.
  - destruct (find_some _ _ E) as [Hin1 Hc1]. simpl in Hc1.
    exists k1, v1. split; [exact Hin1|]. split; [now apply contains_spec|].
    simpl. unfold first_match. rewrite E. simpl.
    unfold values_nonempty in Hne. rewrite Forall_forall in Hne.
    specialize (Hne (k1, v1) Hin1). simpl in Hne.
    destruct v1; [contradiction | reflexivity].
  - pose proof (find_none _ _ E (k, v0) Hin) as Hf. simpl in Hf.
    apply contains_spec in Hsub. congruence.
Qed.

Lemma append_empty (s : string) : (s ++ "")%string = s.
Proof. induction s as [|a s IH]; simpl; [reflexivity | now rewrite IH]. Qed.

(** X3. Every column of a sheet that is read can be requested by its
    original name and by its canonical name [<device>_<column>]: the key
    entered for it is the normalized device name followed by the
    normalized column name, both requests are contained in that key, and
    [map_columns] answers each with one canonical name and no warning. *)
Theorem processed_columns_always_resolve (wb : Workbook) (s : Sheet)
  (c : string) :
  In s (firstn 2 wb) -> In c (sheet_columns s) ->
  In (normalize_col_name (device_name (sheet_name s)) ++ normalize_col_name c)%string
     (map fst (col_map (load wb)))
  /\ resolves_to_a_column (col_map (load wb)) c
  /\ resolves_to_a_column (col_map (load wb))
       (prefixed (device_name (sheet_name s)) c).
Proof.
  intros Hs Hc.
  pose proof (processed_column_key wb s c Hs Hc) as Hk.
  pose proof (load_index_values_nonempty to_datetime wb) as Hne.
  rewrite normalize_prefixed in Hk. split; [exact Hk|]. split.
  - apply (contained_request_resolves _ _ _ Hne Hk).
    exists (normalize_col_name (device_name (sheet_name s))), EmptyString.
    now rewrite append_empty.
  - apply (contained_request_resolves _ _ _ Hne Hk).
    exists EmptyString, EmptyString. rewrite normalize_prefixed. simpl.
    now rewrite append_empty.
Qed.

End ResolutionFacts.

Section ResolutionEdges.
Import PyStr Frame Aggregator Spec Examples Further.

Lemma processed_columns_always_resolve_witness :
  In sheet_B (firstn 2 three_sheets)
  /\ In "temp" (sheet_columns sheet_B)
  /\ In (normalize_col_name (device_name (sheet_name sheet_B))
         ++ normalize_col_name "temp")%string
        (map fst (col_map (load_and_merge_excel parse three_sheets)))
  /\ resolves_to_a_column (col_map (load_and_merge_excel parse three_sheets))
       "temp"
  /\ resolves_to_a_column (col_map (load_and_merge_excel parse three_sheets))
       (prefixed (device_name (sheet_name sheet_B)) "temp").
Proof.
  assert (H1 : In sheet_B (firstn 2 three_sheets)) by (simpl; tauto).
  assert (H2 : In "temp" (sheet_columns sheet_B)) by (simpl; tauto).
  exact (conj H1 (conj H2
           (processed_columns_always_resolve parse three_sheets sheet_B
              "temp" H1 H2))).
Defined.

Lemma unicode_lettered (c : N) :
  lettered c = true -> filter Unicode.is_az (Unicode.lower_char c) <> [].
Proof.
  unfold lettered. intros H.
  destruct (Unicode.is_AZ c) eqn:EAZ.
  - assert (E : Unicode.is_az (c + 32) = true).
    { apply AZ_range in EAZ. apply az_range. lia. }
    unfold Unicode.lower_char. rewrite EAZ. simpl. rewrite E. discriminate.
  - destruct (N.eqb_spec c 304) as [->|E1]; [discriminate|].
    destruct (N.eqb_spec c 8490) as [->|E2]; [discriminate|].
    rewrite !orb_false_r in H.
    rewrite (unicode_lower_char_az c H). simpl. rewrite H. discriminate.
Qed.

(** The strings with an empty normalized form are those without a
    [lettered] character. *)
Lemma unicode_normalize_empty (s : Unicode.str) :
  Unicode.normalize_col_name s = [] <-> letters s = [].
Proof.
  split.
  - induction s as [|c s IH]; [reflexivity|].
    rewrite unicode_normalize_cons. intros H.
    apply app_eq_nil in H. destruct H as [Hc Hs].
    unfold letters in *. cbn [filter].
    destruct (lettered c) eqn:E; [|now apply IH].
    now contradiction (unicode_lettered c E).
  - intros H. now rewrite <- unicode_normalize_letters, H.
Qed.

(** X4. A request whose normalized form is empty is contained in every
    key: over the index of a workbook it resolves to the canonical name
    entered first, without a warning.  The normalized form of a string is
    empty exactly when none of its characters is an ASCII letter, U+0130
    or U+212A (digits, punctuation, blanks, or nothing at all); the
    request ["2024-01 (#3)"] is one. *)
Theorem letterless_request_takes_first_column :
  (forall (to_datetime : Cell -> option Z) (wb : Workbook) (req k v : string)
          (rest : ColMap),
     normalize_col_name req = EmptyString ->
     col_map (load_and_merge_excel to_datetime wb) = (k, v) :: rest ->
     map_columns (col_map (load_and_merge_excel to_datetime wb)) [req]
     = ([v], []))
  /\ (forall s : Unicode.str,
        Unicode.normalize_col_name s = [] <-> letters s = [])
  /\ normalize_col_name "2024-01 (#3)" = EmptyString
  /\ map_columns (col_map (load_and_merge_excel parse three_sheets))
       ["2024-01 (#3)"]
     = (["A_temp"], []).
Proof.
  split; [|split; [exact unicode_normalize_empty | split; reflexivity]].
  intros to_datetime wb req k v rest Hreq Hcm.
  pose proof (load_index_values_nonempty to_datetime wb) as Hne.
  rewrite Hcm in *. simpl. unfold first_match. simpl.
  rewrite Hreq.
  assert (Hk : contains EmptyString k = true) by (destruct k; reflexivity).
  rewrite Hk. simpl.
  inversion Hne as [|? ? Hv _]; subst. simpl in Hv.
  destruct v; [contradiction | reflexivity].
Qed.

Lemma map_columns_cons (cm : ColMap) (req : string) (reqs : list string) :
  map_columns cm (req :: reqs)
  = (fst (map_columns cm [req]) ++ fst (map_columns cm reqs),
     snd (map_columns cm [req]) ++ snd (map_columns cm reqs)).
Proof.
  simpl. destruct (map_columns cm reqs) as [mapped printed]. simpl.
  destruct (truthy_str (first_match cm (normalize_col_name req)));
    [destruct (first_match cm (normalize_col_name req))|]; reflexivity.
Qed.

Lemma map_columns_one (cm : ColMap) (req : string) :
  List.length (fst (map_columns cm [req]))
  + List.length (snd (map_columns cm [req])) = 1.
Proof.
  simpl. destruct (first_match cm (normalize_col_name req)) as [[|a v]|];
    reflexivity.
Qed.

(** X5. [map_columns] treats the requests one by one: the answer to a
    list of requests put together from two lists is the two answers put
    together, names and warnings each in order; every request yields
    either one name or one warning, so names and warnings together are
    as many as the requests; and the warnings name unresolved requests
    only, in the order they were made. *)
Theorem map_columns_request_by_request (cm : ColMap)
  (reqs reqs' : list string) :
  map_columns cm (reqs ++ reqs')
  = (fst (map_columns cm reqs) ++ fst (map_columns cm reqs'),
     snd (map_columns cm reqs) ++ snd (map_columns cm reqs'))
  /\ List.length (fst (map_columns cm reqs))
     + List.length (snd (map_columns cm reqs)) = List.length reqs
  /\ exists unresolved,
       snd (map_columns cm reqs) = map ColumnNotFound unresolved
       /\ unresolved
          = filter (fun r => negb (truthy_str
                       (first_match cm (normalize_col_name r)))) reqs.
Proof.
  split; [|split].
  - induction reqs as [|r reqs IH].
    + simpl. now destruct (map_columns cm reqs').
    + rewrite <- app_comm_cons, map_columns_cons, IH, (map_columns_cons cm r reqs).
      cbn [fst snd]. now rewrite !app_assoc.
  - induction reqs as [|r reqs IH]; [reflexivity|].
    rewrite map_columns_cons. cbn [fst snd]. rewrite !length_app.
    pose proof (map_columns_one cm r). cbn [List.length]. lia.
  - eexists. split; [|reflexivity].
    induction reqs as [|r reqs IH]; [reflexivity|].
    rewrite map_columns_cons. cbn [snd]. rewrite IH. simpl.
    destruct (truthy_str (first_match cm (normalize_col_name r))); reflexivity.
Qed.

End ResolutionEdges.

(* ================================================================== *)
(** ** Further properties: the time filter and the first stages of [run] *)
(* ================================================================== *)

Section FilterFacts.
Import Frame Aggregator Window Join Examples Further.

Lemma applied_bound_nonzero (b : option Z) : applied_bound b <> Some 0%Z.
Proof.
  unfold applied_bound, truthy_int. destruct b as [z|]; [|discriminate].
  destruct (Z.eqb_spec z 0); simpl; congruence.
Qed.

Lemma apply_applied_bounds (df : option Table) (timefrom timeto : option Z) :
  apply_time_filters df timefrom timeto
  = apply_time_filters df (applied_bound timefrom) (applied_bound timeto).
Proof.
  unfold applied_bound, truthy_int.
  destruct timefrom as [lo|], timeto as [hi|]; try reflexivity;
    try destruct (Z.eqb_spec lo 0); try destruct (Z.eqb_spec hi 0);
    subst; reflexivity.
Qed.

(** On a table, with bounds that can be converted,
    [apply_time_filters] returns the window of the bounds it acts on. *)
Lemma apply_on_table (t : Table) (timefrom timeto : option Z) :
  representable (applied_bound timefrom) ->
  representable (applied_bound timeto) ->
  apply_time_filters (Some t) timefrom timeto
  = Ok (Some (window_filtered t (applied_bound timefrom) (applied_bound timeto)),
        [RowsAfterTimeFilter
           (List.length
              (rows (window_filtered t (applied_bound timefrom)
                       (applied_bound timeto))))]).
Proof.
  intros Rf Rt. rewrite apply_applied_bounds.
  apply filters_window_nonzero;
    [apply applied_bound_nonzero | apply applied_bound_nonzero | exact Rf
    | exact Rt].
Qed.

Lemma filter_idem {A : Type} (p : A -> bool) (l : list A) :
  filter p (filter p l) = filter p l.
Proof.
  induction l as [|a l IH]; simpl; [reflexivity|].
  destruct (p a) eqn:E; simpl; [rewrite E; now f_equal | exact IH].
Qed.

(** [apply_time_filters] on a table: the bounds are converted in turn,
    then the rows that pass both are kept. *)
Lemma apply_time_filters_converted (t : Table) (timefrom timeto : option Z) :
  apply_time_filters (Some t) timefrom timeto
  = (lo <- converted timefrom ;;
     hi <- converted timeto ;;
     Ok (Some (kept t lo hi),
         [RowsAfterTimeFilter (List.length (rows (kept t lo hi)))])).
Proof.
  unfold apply_time_filters, converted, applied_bound, select_rows, kept,
    passes.
  destruct timefrom as [lo|], timeto as [hi|]; cbn [truthy_int];
    try destruct (negb (lo =? 0)%Z); try destruct (negb (hi =? 0)%Z);
    try destruct (to_datetime_ms lo) as [a|e];
    try destruct (to_datetime_ms hi) as [b|e'];
    cbn; rewrite ?filter_twice, ?filter_andb_true, ?filter_all;
    try reflexivity; now destruct t.
Qed.

Lemma to_datetime_ms_error (z : Z) (e : PyError) :
  to_datetime_ms z = Raise e -> e = OutOfBoundsDatetime.
Proof.
  unfold to_datetime_ms. destruct (z =? nat_value)%Z; [discriminate|].
  destruct ((ms_min <=? z) && (z <=? ms_max))%Z; [discriminate|].
  now intros [= <-].
Qed.

Lemma to_datetime_ms_out_of_bounds (z : Z) :
  out_of_bounds z -> to_datetime_ms z = Raise OutOfBoundsDatetime.
Proof.
  intros (_ & _ & Hn & Hr). unfold to_datetime_ms.
  destruct (Z.eqb_spec z nat_value) as [E|_]; [contradiction|].
  destruct (Z.leb_spec ms_min z), (Z.leb_spec z ms_max); simpl;
    try reflexivity. lia.
Qed.

Lemma converted_error (b : option Z) (e : PyError) :
  converted b = Raise e -> e = OutOfBoundsDatetime.
Proof.
  unfold converted. destruct (applied_bound b) as [z|]; [|discriminate].
  destruct (to_datetime_ms z) as [ts|e'] eqn:E; simpl; [discriminate|].
  intros [= <-]. exact (to_datetime_ms_error z e' E).
Qed.

Lemma converted_representable (b : option Z) :
  representable (applied_bound b) ->
  converted b = Ok (option_map Some (applied_bound b)).
Proof.
  unfold converted. intros H. destruct (applied_bound b) as [z|];
    [|reflexivity].
  now rewrite (to_datetime_ms_in_range z (H z eq_refl)).
Qed.

Lemma converted_out_of_bounds (z : Z) :
  out_of_bounds z -> converted (Some z) = Raise OutOfBoundsDatetime.
Proof.
  intros H. unfold converted, applied_bound, truthy_int.
  destruct H as (H64 & H0 & Hrest).
  rewrite (proj2 (Z.eqb_neq z 0) H0). cbn [negb].
  rewrite to_datetime_ms_out_of_bounds; [reflexivity|].
  exact (conj H64 (conj H0 Hrest)).
Qed.

Lemma converted_applied (b : option Z) (c : option Timestamp) :
  truthy_int b = true -> converted b = Ok c -> c <> None.
Proof.
  unfold converted, applied_bound. intros Ht H. rewrite Ht in H.
  destruct b as [z|]; [|discriminate Ht].
  destruct (to_datetime_ms z); simpl in H; [|discriminate H].
  injection H as <-. discriminate.
Qed.

Lemma passes_geb_stamped (lo : option Timestamp) (r : Row) :
  lo <> None -> passes bound_geb lo r = true -> fst r <> None.
Proof.
  destruct lo as [ts|]; [intros _|congruence]. unfold passes, bound_geb.
  destruct ts as [b|]; [|discriminate]. unfold time_geb.
  destruct (fst r); [discriminate | discriminate].
Qed.

Lemma passes_leb_stamped (hi : option Timestamp) (r : Row) :
  hi <> None -> passes bound_leb hi r = true -> fst r <> None.
Proof.
  destruct hi as [ts|]; [intros _|congruence]. unfold passes, bound_leb.
  destruct ts as [b|]; [|discriminate]. unfold time_leb.
  destruct (fst r); [discriminate | discriminate].
Qed.

Lemma apply_time_filters_error (t : Table) (timefrom timeto : option Z)
  (e : PyError) :
  apply_time_filters (Some t) timefrom timeto = Raise e ->
  e = OutOfBoundsDatetime.
Proof.
  rewrite apply_time_filters_converted.
  destruct (converted timefrom) as [lo|e1] eqn:Ef.
  - destruct (converted timeto) as [hi|e2] eqn:Et; [discriminate|].
    cbn [bind]. intros [= <-]. exact (converted_error _ _ Et).
  - cbn [bind]. intros [= <-]. exact (converted_error _ _ Ef).
Qed.

(** X6. On a table [apply_time_filters] returns whenever the bounds it
    acts on can be converted, and the only error it raises is
    [OutOfBoundsDatetime].  What it returns is a table with the same
    columns whose rows are rows of the input, in their order (a
    selection by a test on the row); the number it prints is the number
    of rows returned; and filtering the result again with the same
    bounds changes nothing.  A 64-bit lower bound that cannot be
    converted raises (10^16, for one), and so does such an upper bound
    after a lower bound that was converted; the bound that stands for
    [NaT] keeps no row. *)
Theorem apply_time_filters_selects_rows (t : Table)
  (timefrom timeto : option Z) :
  (representable (applied_bound timefrom) ->
   representable (applied_bound timeto) ->
   exists out, apply_time_filters (Some t) timefrom timeto = Ok out)
  /\ (forall out,
        apply_time_filters (Some t) timefrom timeto = Ok out ->
        exists t',
          out = (Some t', [RowsAfterTimeFilter (List.length (rows t'))])
          /\ columns t' = columns t
          /\ (exists keep : Row -> bool, rows t' = filter keep (rows t))
          /\ apply_time_filters (Some t') timefrom timeto = Ok out)
  /\ (forall e,
        apply_time_filters (Some t) timefrom timeto = Raise e ->
        e = OutOfBoundsDatetime)
  /\ (forall z, out_of_bounds z ->
        apply_time_filters (Some t) (Some z) timeto
        = Raise OutOfBoundsDatetime)
  /\ (forall z, out_of_bounds z -> representable (applied_bound timefrom) ->
        apply_time_filters (Some t) timefrom (Some z)
        = Raise OutOfBoundsDatetime)
  /\ out_of_bounds (10 ^ 16)
  /\ apply_time_filters (Some t) (Some nat_value) None
     = Ok (Some {| columns := columns t; rows := [] |},
           [RowsAfterTimeFilter 0]).
Proof.
  refine (conj _ (conj _ (conj _ (conj _ (conj _ (conj _ _)))))).
  - intros Rf Rt. eexists. now apply apply_on_table.
  - intros out. rewrite apply_time_filters_converted.
    destruct (converted timefrom) as [lo|e] eqn:Ef; [|discriminate].
    destruct (converted timeto) as [hi|e] eqn:Et; [|discriminate].
    cbn [bind]. intros [= <-]. exists (kept t lo hi).
    split; [reflexivity|]. split; [reflexivity|].
    split; [eexists; reflexivity|].
    rewrite apply_time_filters_converted, Ef, Et. cbn [bind].
    unfold kept. cbn [rows columns]. now rewrite filter_idem.
  - apply apply_time_filters_error.
  - intros z Hz. rewrite apply_time_filters_converted.
    now rewrite (converted_out_of_bounds z Hz).
  - intros z Hz Rf. rewrite apply_time_filters_converted.
    rewrite (converted_representable _ Rf). cbn [bind].
    now rewrite (converted_out_of_bounds z Hz).
  - unfold out_of_bounds, int64, nat_value, ms_min, ms_max. lia.
  - rewrite apply_time_filters_converted.
    assert (Ec : converted (Some nat_value) = Ok (Some None)) by reflexivity.
    rewrite Ec. cbn [bind converted applied_bound truthy_int].
    assert (E : kept t (Some None) None
                = {| columns := columns t; rows := [] |}).
    { unfold kept. f_equal.
      induction (rows t) as [|r l IH]; [reflexivity | exact IH]. }
    now rewrite E.
Qed.

(** X7. As soon as one bound is acted on (given and not 0), the rows
    whose timestamp did not parse are dropped: every row of a table that
    is returned has a timestamp, and a table is returned whenever the
    bounds can be converted.  Without such a bound every row is
    returned, those without a timestamp included. *)
Theorem bounded_filter_drops_null_timestamps (t : Table)
  (timefrom timeto : option Z) :
  (truthy_int timefrom || truthy_int timeto = true ->
   (representable (applied_bound timefrom) ->
    representable (applied_bound timeto) ->
    exists out, apply_time_filters (Some t) timefrom timeto = Ok out)
   /\ forall out,
        apply_time_filters (Some t) timefrom timeto = Ok out ->
        exists t',
          out = (Some t', [RowsAfterTimeFilter (List.length (rows t'))])
          /\ Forall (fun r : Row => fst r <> None) (rows t'))
  /\ (truthy_int timefrom || truthy_int timeto = false ->
      apply_time_filters (Some t) timefrom timeto
      = Ok (Some t, [RowsAfterTimeFilter (List.length (rows t))])).
Proof.
  split.
  - intros H. split; [intros Rf Rt; eexists; now apply apply_on_table|].
    intros out. rewrite apply_time_filters_converted.
    destruct (converted timefrom) as [lo|e] eqn:Ef; [|discriminate].
    destruct (converted timeto) as [hi|e] eqn:Et; [|discriminate].
    cbn [bind]. intros [= <-]. exists (kept t lo hi).
    split; [reflexivity|]. apply Forall_forall. intros r Hr.
    unfold kept in Hr. cbn [rows] in Hr. apply filter_In in Hr.
    destruct Hr as [_ Hp]. apply andb_true_iff in Hp. destruct Hp as [P1 P2].
    apply orb_true_iff in H. destruct H as [H|H].
    + exact (passes_geb_stamped lo r (converted_applied _ _ H Ef) P1).
    + exact (passes_leb_stamped hi r (converted_applied _ _ H Et) P2).
  - intros H. apply orb_false_iff in H. destruct H as [Hf Ht].
    rewrite apply_on_table; unfold applied_bound; rewrite ?Hf, ?Ht;
      try (intros z Hz; discriminate Hz).
    unfold window_filtered, in_window. simpl. rewrite filter_all.
    now destruct t.
Qed.

(** X8. Bounds that are acted on, can be converted and cross (the upper
    below the lower) leave no row: the table returned has the columns of
    the input and is empty, and the number printed is 0. *)
Theorem crossed_bounds_leave_no_row (t : Table) (lo hi : Z) :
  lo <> 0%Z -> hi <> 0%Z -> (ms_min <= hi)%Z -> (hi < lo)%Z ->
  (lo <= ms_max)%Z ->
  apply_time_filters (Some t) (Some lo) (Some hi)
  = Ok (Some {| columns := columns t; rows := [] |}, [RowsAfterTimeFilter 0]).
Proof.
  intros Hlo Hhi Hmin Hlt Hmax.
  assert (Elo : applied_bound (Some lo) = Some lo).
  { unfold applied_bound, truthy_int.
    now rewrite (proj2 (Z.eqb_neq lo 0) Hlo). }
  assert (Ehi : applied_bound (Some hi) = Some hi).
  { unfold applied_bound, truthy_int.
    now rewrite (proj2 (Z.eqb_neq hi 0) Hhi). }
  rewrite apply_on_table; rewrite ?Elo, ?Ehi;
    try (intros z [= <-]; lia).
  assert (E : filter (in_window (Some lo) (Some hi)) (rows t) = []).
  { induction (rows t) as [|r l IH]; simpl; [reflexivity|].
    destruct (in_window (Some lo) (Some hi) r) eqn:W; [|exact IH].
    apply in_window_spec in W. destruct W as [W1 W2].
    destruct (W1 lo eq_refl) as (x & Hx & Hx1).
    destruct (W2 hi eq_refl) as (y & Hy & Hy1).
    rewrite Hx in Hy. injection Hy as <-. lia. }
  unfold window_filtered. rewrite E. reflexivity.
Qed.

Lemma crossed_bounds_leave_no_row_witness :
  (2000 <> 0 /\ 1000 <> 0 /\ ms_min <= 1000 /\ 1000 < 2000 /\ 2000 <= ms_max)%Z
  /\ apply_time_filters (Some old_readings) (Some 2000%Z) (Some 1000%Z)
     = Ok (Some {| columns := columns old_readings; rows := [] |},
           [RowsAfterTimeFilter 0]).
Proof.
  assert (H1 : (2000 <> 0)%Z) by discriminate.
  assert (H2 : (1000 <> 0)%Z) by discriminate.
  assert (H3 : (ms_min <= 1000)%Z) by discriminate.
  assert (H4 : (1000 < 2000)%Z) by reflexivity.
  assert (H5 : (2000 <= ms_max)%Z) by discriminate.
  exact (conj (conj H1 (conj H2 (conj H3 (conj H4 H5))))
           (crossed_bounds_leave_no_row old_readings 2000 1000 H1 H2 H3 H4 H5)).
Defined.


End FilterFacts.

(* ================================================================== *)
(** ** Further properties: device names and canonical column names *)
(* ================================================================== *)

Section NamingFacts.
Import PyStr Frame Aggregator Spec Examples Further.

Lemma starts_with_app (p s : string) : starts_with p (p ++ s) = true.
Proof.
  induction p as [|a p IH]; simpl; [reflexivity|].
  now rewrite Ascii.eqb_refl, IH.
Qed.

Lemma drop_app (p s : string) : drop (String.length p) (p ++ s) = s.
Proof. induction p as [|a p IH]; simpl; [reflexivity | exact IH]. Qed.

Lemma length_append (p s : string) :
  String.length (p ++ s) = String.length p + String.length s.
Proof. induction p as [|a p IH]; simpl; [reflexivity | now rewrite IH]. Qed.

(** Where [old] does not occur there is nothing to remove. *)
Lemma remove_all_absent (old s : string) (fuel : nat) :
  contains old s = false -> String.length s <= fuel ->
  remove_all_fuel fuel old s = s.
Proof.
  revert s. induction fuel as [|fuel IH]; intros s Hc Hl.
  - destruct s; [reflexivity | simpl in Hl; lia].
  - destruct s as [|c s]; [reflexivity|].
    cbn [contains] in Hc. apply orb_false_iff in Hc. destruct Hc as [Hs Hc].
    cbn [remove_all_fuel]. rewrite Hs. f_equal.
    apply IH; [exact Hc | simpl in Hl; lia].
Qed.

Lemma remove_all_leading (old s : string) :
  old <> EmptyString -> contains old s = false ->
  remove_all old (old ++ s) = s.
Proof.
  intros Hold Hc. unfold remove_all. rewrite length_append.
  destruct old as [|a old]; [congruence|].
  pose proof (starts_with_app (String a old) s) as Hs.
  pose proof (drop_app (String a old) s) as Hd.
  cbn [String.length Nat.add append] in *.
  cbn [remove_all_fuel]. rewrite Hs.
  cbn [String.length]. rewrite Hd.
  apply remove_all_absent; [exact Hc | lia].
Qed.

Lemma before_last_absent (sep : ascii) (s : string) :
  free_of sep s = true -> before_last sep s = None.
Proof.
  unfold free_of. induction s as [|c s IH]; simpl; [reflexivity|].
  rewrite andb_true_iff, negb_true_iff. intros [Hc Hs].
  now rewrite (IH Hs), Hc.
Qed.

Lemma before_last_split (sep : ascii) (d suffix : string) :
  free_of sep suffix = true ->
  before_last sep (d ++ String sep suffix) = Some d.
Proof.
  intros H. induction d as [|c d IH]; simpl.
  - now rewrite (before_last_absent sep suffix H), Ascii.eqb_refl.
  - now rewrite IH.
Qed.

(** X10. [device_name] undoes the labelling of the sheets: for a device
    name without white space at its ends and a suffix without
    underscore, the label [<device>_<suffix>] gives back the device,
    with or without the leading marker ["Input "], provided the marker
    does not occur inside [<device>_<suffix>] itself. *)
Theorem device_name_of_label (device suffix : string) :
  strip device = device ->
  free_of "_"%char suffix = true ->
  contains "Input " (device ++ "_" ++ suffix) = false ->
  device_name ("Input " ++ device ++ "_" ++ suffix) = device
  /\ device_name (device ++ "_" ++ suffix) = device.
Proof.
  intros Hstrip Hfree Hin. unfold device_name. split.
  - rewrite remove_all_leading by (discriminate || exact Hin).
    unfold rsplit1_head.
    change ("_" ++ suffix)%string with (String "_"%char suffix).
    now rewrite (before_last_split "_"%char device suffix Hfree).
  - unfold remove_all. rewrite remove_all_absent by (exact Hin || lia).
    unfold rsplit1_head.
    change ("_" ++ suffix)%string with (String "_"%char suffix).
    now rewrite (before_last_split "_"%char device suffix Hfree).
Qed.

Lemma device_name_of_label_witness :
  (strip "Boiler 7" = "Boiler 7"
   /\ free_of "_"%char "2024" = true
   /\ contains "Input " ("Boiler 7" ++ "_" ++ "2024") = false)
  /\ device_name ("Input " ++ "Boiler 7" ++ "_" ++ "2024") = "Boiler 7"
  /\ device_name ("Boiler 7" ++ "_" ++ "2024") = "Boiler 7".
Proof.
  split; [repeat split|].
  exact (device_name_of_label "Boiler 7" "2024" eq_refl eq_refl eq_refl).
Defined.

Lemma rename_columns_names (device : string) (todo cols : list string)
  (cm : ColMap) :
  (forall c c', In c todo -> In c' todo -> c <> prefixed device c') ->
  fst (rename_columns device todo cols cm)
  = map (fun c => if mem c todo then prefixed device c else c) cols.
Proof.
  revert cols cm. induction todo as [|c0 todo IH]; intros cols cm H.
  - simpl. symmetry. apply map_id.
  - cbn [rename_columns]. rewrite IH.
    + unfold rename. rewrite map_map. apply map_ext. intros c.
      cbn [mem existsb]. fold (mem c todo).
      destruct (String.eqb_spec c c0) as [->|Hne].
      * assert (Hm : mem (prefixed device c0) todo = false).
        { destruct (mem (prefixed device c0) todo) eqn:E; [|reflexivity].
          apply mem_spec in E. exfalso.
          apply (H (prefixed device c0) c0); [now right | now left | reflexivity]. }
        rewrite Hm. reflexivity.
      * reflexivity.
    + intros c c' Hc Hc'. apply H; now right.
Qed.

(** X11. When no column of a sheet is named like the canonical name of a
    column of that sheet, reading the sheet names every column
    [<device>_<original>], in the order of the sheet, keeps the rows in
    number and order with their cells untouched, and only converts the
    timestamps. *)
Theorem read_sheet_prefixes_every_column (to_datetime : Cell -> option Z)
  (s : Sheet) (cm : ColMap) :
  no_name_clash (device_name (sheet_name s)) (sheet_columns s) ->
  columns (fst (read_sheet to_datetime s cm))
  = map (prefixed (device_name (sheet_name s))) (sheet_columns s)
  /\ map snd (rows (fst (read_sheet to_datetime s cm)))
     = map snd (sheet_rows s)
  /\ map fst (rows (fst (read_sheet to_datetime s cm)))
     = map (fun r => to_datetime (fst r)) (sheet_rows s).
Proof.
  intros H. unfold read_sheet.
  pose proof (rename_columns_names (device_name (sheet_name s))
                (sheet_columns s) (sheet_columns s) cm H) as Hn.
  destruct (rename_columns _ _ _ cm) as [cols cm']. simpl in *.
  split; [|split].
  - rewrite Hn. apply map_ext_in. intros c Hc.
    now rewrite (proj2 (mem_spec c (sheet_columns s)) Hc).
  - rewrite map_map. reflexivity.
  - rewrite map_map. reflexivity.
Qed.

Lemma sheet_A_no_name_clash :
  no_name_clash (device_name (sheet_name sheet_A)) (sheet_columns sheet_A).
Proof.
  intros c c' Hc Hc'. simpl in Hc, Hc'.
  destruct Hc as [<-|[<-|[]]]; destruct Hc' as [<-|[<-|[]]]; discriminate.
Qed.

Lemma read_sheet_prefixes_every_column_witness :
  no_name_clash (device_name (sheet_name sheet_A)) (sheet_columns sheet_A)
  /\ columns (fst (read_sheet parse sheet_A [])) = ["A_temp"; "A_pressure"].
Proof.
  split; [exact sheet_A_no_name_clash|].
  exact (proj1 (read_sheet_prefixes_every_column parse sheet_A []
                  sheet_A_no_name_clash)).
Defined.

(** Where a column is named like the canonical name of an earlier one,
    both end under one name. *)
Example clashing_names_collapse :
  columns (fst (read_sheet parse
                  {| sheet_name := "Input A_1";
                     sheet_columns := ["x"; "A_x"];
                     sheet_rows := [] |} []))
  = ["A_A_x"; "A_A_x"].
Proof. reflexivity. Qed.

End NamingFacts.

(* ================================================================== *)
(** ** Further properties: the header of the result and the mode *)
(* ================================================================== *)

Section HeaderFacts.
Import PyStr Frame Aggregator Spec Mode Further.

Lemma dict_set_fresh {V : Type} (k : string) (v : V) (d : Dict V) :
  ~ In k (map fst d) -> dict_set k v d = d ++ [(k, v)].
Proof.
  induction d as [|[k0 v0] d IH]; simpl; [reflexivity|]. intros H.
  destruct (String.eqb_spec k k0) as [->|Hne]; [tauto|].
  rewrite IH; [reflexivity | tauto].
Qed.

Lemma set_all_fresh {V : Type} (ks : list string) (v : V) (d : Dict V) :
  NoDup ks -> (forall k, In k ks -> ~ In k (map fst d)) ->
  set_all ks v d = d ++ map (fun k => (k, v)) ks.
Proof.
  revert d. induction ks as [|k ks IH]; intros d Hnd Hfresh; simpl.
  - now rewrite app_nil_r.
  - inversion Hnd as [|? ? Hk Hks]; subst.
    rewrite (dict_set_fresh k v d) by (apply Hfresh; now left).
    rewrite IH; [now rewrite <- app_assoc | exact Hks |].
    intros k' Hk'. rewrite map_app, in_app_iff. simpl.
    intros [H|[H|[]]]; [apply (Hfresh k'); [now right | exact H]|].
    subst. contradiction.
Qed.

Lemma filter_partition_NoDup (numeric : string -> bool) (cols : list string) :
  NoDup cols ->
  NoDup (filter numeric cols)
  /\ NoDup (filter (fun c => negb (numeric c)) cols)
  /\ forall c, In c (filter (fun c => negb (numeric c)) cols) ->
               ~ In c (filter numeric cols).
Proof.
  intros H. split; [now apply NoDup_filter|]. split; [now apply NoDup_filter|].
  intros c H1 H2. apply filter_In in H1. apply filter_In in H2.
  destruct H1 as [_ H1], H2 as [_ H2]. rewrite H2 in H1. discriminate.
Qed.

Lemma filter_none_all (numeric : string -> bool) (cols : list string) :
  filter numeric cols = [] -> filter (fun c => negb (numeric c)) cols = cols.
Proof.
  induction cols as [|c cols IH]; simpl; [reflexivity|].
  destruct (numeric c); simpl; [discriminate|]. intros H. now rewrite IH.
Qed.

(** The dictionary [agg_funcs] of a frame with distinct column names. *)
Lemma agg_funcs_shape (numeric_cols non_numeric_cols stats : list string) :
  NoDup numeric_cols -> NoDup non_numeric_cols ->
  (forall c, In c non_numeric_cols -> ~ In c numeric_cols) ->
  agg_funcs numeric_cols non_numeric_cols stats
  = map (fun c => (c, FuncList (funcs_of_stats stats))) numeric_cols
    ++ map (fun c => (c, FuncOne "last")) non_numeric_cols.
Proof.
  intros Hn Ho Hd. unfold agg_funcs.
  rewrite (set_all_fresh numeric_cols _ []) by (assumption || intros k _ []).
  simpl. apply set_all_fresh; [exact Ho|].
  intros k Hk. rewrite map_map. simpl. rewrite map_id. now apply Hd.
Qed.

Lemma header_shape (numeric : string -> bool) (stats cols : list string) :
  NoDup cols ->
  aggregate_data_names numeric stats cols
  = "Date Time" :: header_of numeric stats cols.
Proof.
  intros Hnd. unfold aggregate_data_names, header_of. f_equal.
  destruct (filter_partition_NoDup numeric cols Hnd) as (Hn & Ho & Hd).
  rewrite (agg_funcs_shape _ _ stats Hn Ho Hd).
  destruct (filter numeric cols) as [|c0 num] eqn:E.
  - simpl. rewrite (filter_none_all numeric cols E).
    unfold agg_labels.
    assert (Hex : existsb (fun kv : string * AggSpec => is_func_list (snd kv))
                    (map (fun c => (c, FuncOne "last")) cols) = false).
    { clear. induction cols as [|c cols IH]; simpl; [reflexivity | exact IH]. }
    rewrite Hex. unfold flatten. rewrite !map_map. simpl. apply map_id.
  - unfold agg_labels.
    assert (Hex : existsb (fun kv : string * AggSpec => is_func_list (snd kv))
                    (map (fun c => (c, FuncList (funcs_of_stats stats)))
                         (c0 :: num)
                     ++ map (fun c => (c, FuncOne "last"))
                          (filter (fun c => negb (numeric c)) cols)) = true)
      by reflexivity.
    rewrite Hex. rewrite flat_map_app. unfold flatten. rewrite map_app.
    f_equal.
    + generalize (c0 :: num). intros l. unfold stat_labels.
      induction l as [|c l IH]; [reflexivity|].
      cbn [map flat_map fst snd]. rewrite map_app, IH. f_equal.
      rewrite !map_map. reflexivity.
    + generalize (filter (fun c => negb (numeric c)) cols). intros l.
      induction l as [|c l IH]; [reflexivity|].
      cbn [map flat_map fst snd app]. now rewrite IH.
Qed.

Lemma mangle_named (fs : list AggFunc) (i : nat) :
  (forall f, In f fs -> f <> ModeLambda) ->
  mangle i fs = map callable_name fs.
Proof.
  induction fs as [|[n|] fs IH]; intros H; simpl; [reflexivity| |].
  - f_equal. apply IH. intros f Hf. apply H. now right.
  - now contradiction (H ModeLambda (or_introl eq_refl)).
Qed.

Lemma func_labels_named (fs : list AggFunc) :
  (forall f, In f fs -> f <> ModeLambda) ->
  func_labels fs = map callable_name fs.
Proof.
  intros H. unfold func_labels.
  destruct (List.length fs <=? 1)%nat; [reflexivity | now apply mangle_named].
Qed.

Lemma funcs_without_mode (stats : list string) :
  ~ In "mode" stats ->
  (forall f, In f (funcs_of_stats stats) -> f <> ModeLambda)
  /\ map callable_name (funcs_of_stats stats)
     = filter (fun s => mem s ["min"; "max"; "mean"; "median"]) stats.
Proof.
  induction stats as [|s stats IH]; intros Hm; [split; [intros f []|reflexivity]|].
  destruct IH as [IH1 IH2]; [intros H; apply Hm; now right|].
  assert (Hs : s <> "mode") by (intros ->; apply Hm; now left).
  unfold funcs_of_stats in *. cbn [flat_map filter].
  rewrite map_app, IH2. unfold funcs_of_stat, mem. cbn [existsb].
  destruct (String.eqb_spec s "min") as [->|H1].
  { split; [|reflexivity]. intros f [<-|Hf]; [discriminate | now apply IH1]. }
  destruct (String.eqb_spec s "max") as [->|H2].
  { split; [|reflexivity]. intros f [<-|Hf]; [discriminate | now apply IH1]. }
  destruct (String.eqb_spec s "mean") as [->|H3].
  { split; [|reflexivity]. intros f [<-|Hf]; [discriminate | now apply IH1]. }
  destruct (String.eqb_spec s "median") as [->|H4].
  { split; [|reflexivity]. intros f [<-|Hf]; [discriminate | now apply IH1]. }
  destruct (String.eqb_spec s "mode") as [->|H5]; [congruence|].
  split; [exact IH1 | reflexivity].
Qed.

(** X12. For a frame with distinct column names and a request that
    computes at least one statistic, none of them twice, the header of
    the result is [Date Time], then for each numeric column, in frame
    order, one column per computed statistic in the order requested,
    then the non-numeric columns; when no column is numeric the header
    is [Date Time] and the columns as they are.  A token that is no
    statistic yields no column; without [mode] in the request the labels
    of the statistics are their names.  (The conditions on the request
    keep to the lists of functions pandas accepts: not empty, no name
    twice.) *)
Theorem aggregate_header_numeric_first (numeric : string -> bool)
  (stats cols : list string) :
  NoDup cols -> NoDup (stat_labels stats) -> funcs_of_stats stats <> [] ->
  aggregate_data_names numeric stats cols
  = "Date Time" :: header_of numeric stats cols
  /\ stat_labels stats
     = func_labels
         (funcs_of_stats
            (filter (fun s => mem s ["min"; "max"; "mean"; "median"; "mode"])
                    stats))
  /\ (~ In "mode" stats ->
      stat_labels stats
      = filter (fun s => mem s ["min"; "max"; "mean"; "median"]) stats).
Proof.
  intros Hc _ _. split; [now apply header_shape|]. split.
  - unfold stat_labels. f_equal. unfold funcs_of_stats.
    induction stats as [|s stats IH]; [reflexivity|].
    cbn [flat_map filter]. rewrite IH.
    unfold funcs_of_stat at 1, mem. cbn [existsb].
    destruct (String.eqb_spec s "min") as [->|H1]; [reflexivity|].
    destruct (String.eqb_spec s "max") as [->|H2]; [reflexivity|].
    destruct (String.eqb_spec s "mean") as [->|H3]; [reflexivity|].
    destruct (String.eqb_spec s "median") as [->|H4]; [reflexivity|].
    destruct (String.eqb_spec s "mode") as [->|H5]; reflexivity.
  - intros Hm. destruct (funcs_without_mode stats Hm) as [H1 H2].
    unfold stat_labels. now rewrite func_labels_named.
Qed.

End HeaderFacts.

Section HeaderEdges.
Import PyStr Frame Aggregator Spec Mode Further.

Lemma aggregate_header_numeric_first_witness :
  (NoDup ["A_temp"; "A_note"; "B_temp"]
   /\ NoDup (stat_labels ["mean"; "mode"])
   /\ funcs_of_stats ["mean"; "mode"] <> [])
  /\ aggregate_data_names (fun c => negb (text_column c)) ["mean"; "mode"]
       ["A_temp"; "A_note"; "B_temp"]
     = ["Date Time"; "A_temp_mean"; "A_temp_<lambda_0>"; "B_temp_mean";
        "B_temp_<lambda_0>"; "A_note_last"].
Proof.
  assert (H1 : NoDup ["A_temp"; "A_note"; "B_temp"])
    by (repeat constructor; simpl; intuition congruence).
  assert (H2 : NoDup (stat_labels ["mean"; "mode"]))
    by (repeat constructor; simpl; intuition congruence).
  assert (H3 : funcs_of_stats ["mean"; "mode"] <> []) by discriminate.
  split; [exact (conj H1 (conj H2 H3))|].
  exact (proj1 (aggregate_header_numeric_first
                  (fun c => negb (text_column c)) ["mean"; "mode"]
                  ["A_temp"; "A_note"; "B_temp"] H1 H2 H3)).
Defined.

Lemma filter_all_true {A : Type} (p : A -> bool) (l : list A) :
  (forall x, In x l -> p x = true) ->
  filter p l = l /\ filter (fun x => negb (p x)) l = [].
Proof.
  induction l as [|a l IH]; intros H; simpl; [now split|].
  rewrite (H a (or_introl eq_refl)). simpl.
  destruct IH as [I1 I2]; [intros x Hx; apply H; now right|].
  now rewrite I1, I2.
Qed.

(** X13. The names are suffixed as soon as more than one token was
    requested, whether or not each token is a statistic: when exactly
    one of several tokens is one of [min], [max], [mean], [median], a
    frame of distinct numeric columns gets one output column per column,
    named [<column>_<statistic>]. *)
Theorem unknown_token_still_suffixes (numeric : string -> bool)
  (stats cols : list string) (s : string) :
  NoDup cols -> (forall c, In c cols -> numeric c = true) ->
  funcs_of_stats stats = [ByName s] -> 1 < List.length stats ->
  aggregate_data_names numeric stats cols
  = "Date Time" :: map (fun c => (c ++ "_" ++ s)%string) cols.
Proof.
  intros Hnd Hnum Hf Hlen. rewrite (header_shape numeric stats cols Hnd).
  f_equal. unfold header_of.
  destruct (filter_all_true numeric cols Hnum) as [E1 E2]. rewrite E1, E2.
  destruct cols as [|c0 cols]; [reflexivity|].
  simpl map at 2. rewrite app_nil_r.
  unfold stat_labels, output_name. rewrite Hf.
  destruct (Nat.ltb_spec 1 (List.length stats)) as [_|Hge]; [|lia].
  generalize (c0 :: cols). intros l.
  induction l as [|c l IH]; [reflexivity|]. simpl in *. now rewrite IH.
Qed.

Lemma unknown_token_still_suffixes_witness :
  (NoDup ["A_temp"; "B_temp"]
   /\ funcs_of_stats ["mean"; "average"] = [ByName "mean"]
   /\ 1 < List.length ["mean"; "average"])
  /\ aggregate_data_names (fun _ => true) ["mean"; "average"]
       ["A_temp"; "B_temp"]
     = ["Date Time"; "A_temp_mean"; "B_temp_mean"].
Proof.
  assert (H1 : NoDup ["A_temp"; "B_temp"])
    by (repeat constructor; simpl; intuition congruence).
  assert (H3 : 1 < List.length ["mean"; "average"]) by (simpl; lia).
  split; [exact (conj H1 (conj eq_refl H3))|].
  exact (unknown_token_still_suffixes (fun _ => true) ["mean"; "average"]
           ["A_temp"; "B_temp"] "mean" H1 (fun _ _ => eq_refl) eq_refl H3).
Defined.

Lemma is_mode_permutation (x y : list Z) (m : Z) :
  Permutation x y -> is_mode x m -> is_mode y m.
Proof.
  intros HP (Hin & Hmax & Hmin). unfold is_mode, occurrences in *.
  pose proof (proj1 (Permutation_count_occ Z.eq_dec x y) HP) as Hc.
  repeat split.
  - now apply (Permutation_in _ HP).
  - intros z. rewrite <- !Hc. apply Hmax.
  - intros z. rewrite <- !Hc. apply Hmin.
Qed.

Lemma mode_lambda_nulls_prevail (policy : NanPolicy) (x : list Reading) :
  nulls_prevail x -> mode_lambda policy x = None.
Proof.
  intros H. unfold mode_lambda.
  destruct (0 <? List.length x)%nat; [|reflexivity].
  now apply mode_nulls_prevail.
Qed.

(** The result on a bucket in which the mode of the values occurs at
    least as often as null. *)
Lemma mode_lambda_values_prevail (policy : NanPolicy) (x : list Reading)
  (m : Z) :
  is_mode (numbers x) m -> nan_count x <= occurrences m (numbers x) ->
  mode_lambda policy x
  = match policy with
    | NanAsValue => Some m
    | NanAsResult => if (nan_count x =? 0)%nat then Some m else None
    end.
Proof.
  intros Hm Hle.
  assert (Hx : x <> []).
  { intros ->. destruct Hm as [Hin _]. contradiction Hin. }
  rewrite (mode_lambda_nonempty policy x Hx).
  destruct policy; [now apply mode_values_prevail|].
  destruct (existsb is_nan x) eqn:E.
  - assert (Hc : nan_count x <> 0) by now apply nan_count_exists.
    rewrite (proj2 (Nat.eqb_neq _ _) Hc). unfold scipy_mode. now rewrite E.
  - assert (Hc : nan_count x = 0).
    { destruct (Nat.eq_dec (nan_count x) 0) as [C|C]; [exact C|].
      apply nan_count_exists in C. congruence. }
    rewrite Hc. cbn [Nat.eqb]. rewrite (scipy_mode_no_nan NanAsResult x E).
    now apply mode_values_prevail.
Qed.

(** Either null prevails, or the mode of the values occurs at least as
    often as null, or the bucket is empty. *)
Lemma bucket_cases (x : list Reading) :
  x = []
  \/ nulls_prevail x
  \/ exists m, is_mode (numbers x) m
               /\ nan_count x <= occurrences m (numbers x).
Proof.
  destruct (numbers x) as [|v l] eqn:En.
  - destruct (nan_count x) as [|n] eqn:Ec.
    + left. pose proof (bucket_length x) as Hl. rewrite En, Ec in Hl.
      destruct x; [reflexivity | discriminate Hl].
    + right. left. intros w. rewrite En, Ec. unfold occurrences. simpl. lia.
  - right. rewrite <- En.
    destruct (mode_of_numbers (numbers x)) as (m & _ & _ & Hm);
      [rewrite En; discriminate|].
    destruct (Nat.le_gt_cases (nan_count x) (occurrences m (numbers x)))
      as [Hle|Hgt].
    + right. now exists m.
    + left. intros w. destruct Hm as (_ & Hmax & _). specialize (Hmax w). lia.
Qed.

(** The result is determined by the values with their numbers of
    occurrences and the number of nulls. *)
Lemma mode_lambda_determined (policy : NanPolicy) (x y : list Reading) :
  Permutation (numbers x) (numbers y) -> nan_count x = nan_count y ->
  mode_lambda policy x = mode_lambda policy y.
Proof.
  intros HP Hc.
  pose proof (proj1 (Permutation_count_occ Z.eq_dec _ _) HP) as Hocc.
  destruct (bucket_cases x) as [-> | [Hp | (m & Hm & Hle)]].
  - simpl in HP, Hc. apply Permutation_nil in HP.
    pose proof (bucket_length y) as Hl. rewrite HP, <- Hc in Hl.
    destruct y; [reflexivity | discriminate Hl].
  - rewrite (mode_lambda_nulls_prevail policy x Hp).
    symmetry. apply mode_lambda_nulls_prevail.
    intros w. specialize (Hp w). unfold occurrences in *.
    rewrite <- Hocc, <- Hc. exact Hp.
  - rewrite (mode_lambda_values_prevail policy x m Hm Hle).
    rewrite (mode_lambda_values_prevail policy y m).
    + now rewrite Hc.
    + now apply (is_mode_permutation (numbers x)).
    + unfold occurrences in *. now rewrite <- Hocc, <- Hc.
Qed.

(** X14. Under either reading of how [sp_stats.mode] treats null: on a
    bucket without null the function appended for ["mode"] returns [m]
    exactly when [m] is the smallest of the most frequent values of the
    bucket; its result is determined by the values and how often each
    occurs: two buckets that hold the same values and nulls in a
    different order have the same mode, and one more occurrence of the
    mode leaves it the mode. *)
Theorem mode_lambda_depends_on_counts_only (policy : NanPolicy) :
  (forall x m, existsb is_nan x = false ->
               (mode_lambda policy x = Some m <-> is_mode (numbers x) m))
  /\ (forall x y, Permutation x y -> mode_lambda policy x = mode_lambda policy y)
  /\ (forall x m, mode_lambda policy x = Some m ->
                  mode_lambda policy (Some m :: x) = Some m).
Proof.
  split; [|split].
  - intros x m Hn. split; [apply mode_lambda_value|].
    intros H. assert (Hx : x <> []).
    { intros ->. destruct H as [Hin _]. contradiction Hin. }
    destruct (mode_lambda_is_mode policy x Hx Hn) as (m' & Hm' & Hmode).
    now rewrite (is_mode_unique _ m m' H Hmode).
  - intros x y HP. apply mode_lambda_determined.
    + unfold numbers. now apply Permutation_flat_map.
    + pose proof (bucket_length x) as Hx. pose proof (bucket_length y) as Hy.
      pose proof (Permutation_length HP) as Hl.
      assert (Hn : List.length (numbers x) = List.length (numbers y)).
      { apply Permutation_length. unfold numbers.
        now apply Permutation_flat_map. }
      lia.
  - intros x m H. pose proof (mode_lambda_value policy x m H) as Hm.
    destruct (bucket_cases x) as [-> | [Hp | (m' & Hm' & Hle)]].
    + discriminate H.
    + rewrite (mode_lambda_nulls_prevail policy x Hp) in H. discriminate H.
    + pose proof (is_mode_unique _ _ _ Hm Hm') as <-.
      rewrite (mode_lambda_values_prevail policy x m Hm Hle) in H.
      rewrite (mode_lambda_values_prevail policy (Some m :: x) m).
      * exact H.
      * destruct Hm as (Hin & Hmax & Hmin).
        unfold is_mode, occurrences in *. cbn [numbers flat_map app].
        fold (numbers x). repeat split.
        -- now left.
        -- intros y. simpl. destruct (Z.eq_dec m m) as [_|C]; [|congruence].
           destruct (Z.eq_dec m y); [subst; lia|]. pose proof (Hmax y). lia.
        -- intros y. simpl. destruct (Z.eq_dec m m) as [_|C]; [|congruence].
           destruct (Z.eq_dec m y); [subst; lia|]. pose proof (Hmax y). lia.
      * unfold occurrences in *. cbn [numbers flat_map app]. fold (numbers x).
        unfold nan_count in *. simpl.
        destruct (Z.eq_dec m m) as [_|C]; [lia | congruence].
Qed.

End HeaderEdges.

(* ================================================================== *)
(** ** Further properties: [plot_results] and the choice of columns *)
(* ================================================================== *)

Section PlotFacts.
Import PyStr Frame Aggregator Spec Plot Examples Further.

Lemma original_name_spec (cm : ColMap) (col : string) :
  label_spec cm col (original_name cm col).
Proof.
  unfold label_spec, original_name.
  destruct (find (fun kv => contains (snd kv) col) cm) as [[k v]|] eqn:E.
  - left. destruct (find_first _ _ _ E) as (pre & post & Hcm & Hv & Hpre).
    exists pre, post, k. simpl in *. split; [exact Hcm|].
    split; [now apply contains_spec|].
    intros k' v' Hin Hsub. apply contains_spec in Hsub.
    specialize (Hpre (k', v') Hin). simpl in Hpre. congruence.
  - right. split; [reflexivity|]. intros k v Hin Hsub.
    apply contains_spec in Hsub.
    pose proof (find_none _ _ E (k, v) Hin) as H. simpl in H. congruence.
Qed.

Lemma substring_refl (s : string) : Substring s s.
Proof. exists EmptyString, EmptyString. simpl. now rewrite append_empty. Qed.

(** X15. [plot_results] draws nothing when plotting is off, whatever the
    data; when it is on and no column is numeric it only warns;
    otherwise it draws one line per numeric column, in order.  The
    legend label of a line is the first canonical name of the index that
    occurs in the column's name, and the column's own name when none
    does; in both cases the label occurs in the name of the column. *)
Theorem plot_results_labels (cm : ColMap) (numeric_cols : list string) :
  plot_results false cm numeric_cols = NotPlotted
  /\ plot_results true cm [] = NoNumericColumns
  /\ (numeric_cols <> [] ->
      exists series,
        plot_results true cm numeric_cols = Plotted series
        /\ map fst series = numeric_cols
        /\ Forall (fun cl : string * string =>
                     label_spec cm (fst cl) (snd cl)
                     /\ Substring (snd cl) (fst cl)) series).
Proof.
  split; [reflexivity|]. split; [reflexivity|]. intros Hne.
  destruct numeric_cols as [|c cols]; [congruence|].
  eexists. split; [reflexivity|]. split.
  - rewrite map_map. simpl. f_equal. apply map_id.
  - apply Forall_forall. intros [col label] Hin.
    change (In (col, label)
              (map (fun col => (col, original_name cm col)) (c :: cols))) in Hin.
    apply in_map_iff in Hin. destruct Hin as (col' & [= <- <-] & _). simpl.
    pose proof (original_name_spec cm col') as Hs. split; [exact Hs|].
    destruct Hs as [(pre & post & k & _ & Hsub & _) | [-> _]];
      [exact Hsub | apply substring_refl].
Qed.

(** A column named like a longer one gives its name to both lines. *)
Example shorter_name_labels_longer_column :
  plot_results true
    [("atemp", "A_temp"); ("atemperature", "A_temperature")]
    ["A_temp_mean"; "A_temperature_mean"]
  = Plotted [("A_temp_mean", "A_temp"); ("A_temperature_mean", "A_temp")].
Proof. reflexivity. Qed.

End PlotFacts.

Section SelectColumnsFacts.
Import PyStr Frame Aggregator Spec Examples Further.

Lemma forallb_false_exists {A : Type} (p : A -> bool) (l : list A) :
  forallb p l = false <-> exists x, In x l /\ p x = false.
Proof.
  induction l as [|a l IH]; simpl.
  - split; [discriminate | intros (x & [] & _)].
  - rewrite andb_false_iff, IH. split.
    + intros [H|(x & Hx & Hp)]; [exists a; tauto | exists x; tauto].
    + intros (x & [<-|Hx] & Hp); [now left | right; now exists x].
Qed.

Lemma row_get_present (cols : list string) (cells : list Cell) (c : string) :
  List.length cells = List.length cols -> In c cols ->
  exists v, row_get cols cells c = Some v.
Proof.
  revert cells. induction cols as [|a cols IH]; intros cells Hl Hin.
  - destruct Hin.
  - destruct cells as [|v cells]; [discriminate|]. simpl.
    destruct (String.eqb_spec c a); [now exists v|].
    apply IH; [simpl in Hl; congruence|]. destruct Hin; congruence.
Qed.

Lemma row_get_map (f : string -> Cell) (names : list string) (c : string) :
  In c names -> row_get names (map f names) c = Some (f c).
Proof.
  induction names as [|a names IH]; simpl; [intros []|].
  destruct (String.eqb_spec c a) as [->|Hne]; [reflexivity|].
  intros [->|H]; [congruence | now apply IH].
Qed.

(** X16. [df[available]] raises, with [KeyError], exactly when one of the
    names is no column of the frame.  Otherwise, on a rectangular frame
    with distinct column names, it returns a rectangular frame whose
    columns are the names given, in their order, with the rows and
    timestamps of the input in place, each cell holding what the input
    held under that name. *)
Theorem select_columns_projects (available : list string) (df : Table) :
  ((exists e, select_columns available df = Raise e)
   <-> exists c, In c available /\ ~ In c (columns df))
  /\ (forall e, select_columns available df = Raise e -> e = KeyError)
  /\ (rectangular df -> NoDup (columns df) ->
      (forall c, In c available -> In c (columns df)) ->
      exists df',
        select_columns available df = Ok df'
        /\ columns df' = available
        /\ map fst (rows df') = map fst (rows df)
        /\ rectangular df'
        /\ forall i k cells,
             nth_error (rows df) i = Some (k, cells) ->
             exists cells',
               nth_error (rows df') i = Some (k, cells')
               /\ forall c, In c available ->
                    row_get available cells' c
                    = row_get (columns df) cells c).
Proof.
  unfold select_columns. split; [|split].
  - destruct (forallb (fun c => mem c (columns df)) available) eqn:E.
    + split; [intros [e He]; discriminate He|].
      intros (c & Hc & Hout). rewrite forallb_forall in E.
      apply E, mem_spec in Hc. contradiction.
    + split; [|intros _; now exists KeyError]. intros _.
      apply forallb_false_exists in E. destruct E as (c & Hc & Hm).
      exists c. split; [exact Hc|]. intros Hin. apply mem_spec in Hin. congruence.
  - destruct (forallb _ available); intros e [= <-]. reflexivity.
  - intros Hrect _ Hall.
    assert (E : forallb (fun c => mem c (columns df)) available = true)
      by (apply forallb_forall; intros c Hc; apply mem_spec; now apply Hall).
    rewrite E. eexists. split; [reflexivity|]. simpl.
    split; [reflexivity|]. split; [now rewrite map_map|]. split.
    + unfold rectangular. simpl. apply Forall_forall. intros r Hr.
      apply in_map_iff in Hr. destruct Hr as (r0 & <- & _). simpl.
      apply length_map.
    + intros i k cells Hi. rewrite nth_error_map, Hi. simpl.
      eexists. split; [reflexivity|]. intros c Hc.
      rewrite (row_get_map
                 (fun c => cell_or_null (row_get (columns df) cells c))
                 available c Hc).
      unfold rectangular in Hrect. rewrite Forall_forall in Hrect.
      pose proof (Hrect (k, cells) (nth_error_In _ _ Hi)) as Hlen.
      destruct (row_get_present (columns df) cells c Hlen (Hall c Hc))
        as [v Hv].
      now rewrite Hv.
Qed.

End SelectColumnsFacts.

(* ================================================================== *)
(** ** Further properties: the shape of the merged table *)
(* ================================================================== *)

Section ShapeFacts.
Import PyStr Frame Aggregator Spec Join Examples Further.

Lemma rename_columns_length (device : string) (todo cols : list string)
  (cm : ColMap) :
  List.length (fst (rename_columns device todo cols cm)) = List.length cols.
Proof.
  revert cols cm. induction todo as [|c todo IH]; intros cols cm; simpl.
  - reflexivity.
  - rewrite IH. unfold rename. apply length_map.
Qed.

Lemma sheet_frame_rectangular (to_datetime : Cell -> option Z) (s : Sheet) :
  sheet_rectangular s -> rectangular (sheet_frame to_datetime s).
Proof.
  intros H. unfold sheet_frame, read_sheet.
  pose proof (rename_columns_length (device_name (sheet_name s))
                (sheet_columns s) (sheet_columns s) []) as Hl.
  destruct (rename_columns _ _ _ _) as [cols cm]. simpl in *.
  unfold rectangular. simpl. apply Forall_forall. intros r Hr.
  apply in_map_iff in Hr. destruct Hr as (r0 & <- & Hr0). simpl.
  unfold sheet_rectangular in H. rewrite Forall_forall in H.
  rewrite Hl. now apply H.
Qed.

Lemma rows_with_in (k : Timestamp) (rs : list Row) (r : Row) :
  In r (rows_with k rs) -> In r rs.
Proof. unfold rows_with. intros H. now apply filter_In in H. Qed.

Lemma join_key_lengths (l r : Table) (k : Timestamp) (row : Row) :
  rectangular l -> rectangular r ->
  In row (join_key l r k) ->
  List.length (snd row)
  = List.length (columns l) + List.length (columns r).
Proof.
  intros Rl Rr. unfold rectangular in *. rewrite Forall_forall in Rl, Rr.
  unfold join_key.
  assert (Hl : forall x, In x (rows_with k (rows l)) ->
                 List.length (snd x) = List.length (columns l))
    by (intros x Hx; apply Rl; now apply (rows_with_in k)).
  assert (Hr : forall y, In y (rows_with k (rows r)) ->
                 List.length (snd y) = List.length (columns r))
    by (intros y Hy; apply Rr; now apply (rows_with_in k)).
  destruct (rows_with k (rows l)) as [|x xs];
    destruct (rows_with k (rows r)) as [|y ys].
  - intros [].
  - intros H. apply in_map_iff in H. destruct H as (y' & <- & Hy'). simpl.
    rewrite length_app. unfold nulls. rewrite repeat_length.
    now rewrite (Hr y' Hy').
  - intros H. apply in_map_iff in H. destruct H as (x' & <- & Hx'). simpl.
    rewrite length_app. unfold nulls. rewrite repeat_length.
    now rewrite (Hl x' Hx').
  - intros H. apply in_flat_map in H. destruct H as (x' & Hx' & H).
    apply in_map_iff in H. destruct H as (y' & <- & Hy'). simpl.
    rewrite length_app. now rewrite (Hl x' Hx'), (Hr y' Hy').
Qed.

(** The outer join of two rectangular frames is rectangular, whatever
    their keys and column names. *)
Lemma merge_outer_rectangular (l r : Table) :
  rectangular l -> rectangular r -> rectangular (merge_outer l r).
Proof.
  intros Rl Rr. unfold rectangular at 1. apply Forall_forall. intros row Hrow.
  unfold merge_outer in *. simpl in *.
  apply in_flat_map in Hrow. destruct Hrow as (k & _ & Hrow).
  rewrite (join_key_lengths l r k row Rl Rr Hrow).
  unfold suffix_overlap. now rewrite length_app, !length_map.
Qed.

(** X17. When the first two sheets of a workbook are rectangular, the
    table the first two stages of [run] return is rectangular as well:
    every row has one cell for each of its columns, also with repeated
    timestamps or colliding column names in the sheets. *)
Theorem loaded_table_is_rectangular (to_datetime : Cell -> option Z)
  (wb : Workbook) (timefrom timeto : option Z) (t : Table)
  (out : list Printed) :
  Forall sheet_rectangular (firstn 2 wb) ->
  run_load_filter to_datetime wb timefrom timeto = Ok (Some t, out) ->
  rectangular t.
Proof.
  intros Hs Hrun. unfold run_load_filter in Hrun. rewrite load_merged in Hrun.
  assert (Hm : forall T,
             match processed_frames to_datetime wb with
             | [] => None
             | [f] => Some f
             | f :: g :: _ => Some (merge_outer f g)
             end = Some T -> rectangular T).
  { unfold processed_frames. intros T.
    destruct wb as [|s1 [|s2 wb]]; cbn [firstn map] in *; [discriminate| |].
    - intros [= <-]. apply sheet_frame_rectangular. now inversion Hs.
    - intros [= <-]. inversion Hs as [|? ? H1 Hs']; subst.
      inversion Hs' as [|? ? H2 _]; subst.
      apply merge_outer_rectangular; now apply sheet_frame_rectangular. }
  destruct (match processed_frames to_datetime wb with
            | [] => None
            | [f] => Some f
            | f :: g :: _ => Some (merge_outer f g)
            end) as [T|] eqn:E.
  - rewrite apply_time_filters_converted in Hrun.
    destruct (Further.converted timefrom) as [lo|e]; [|discriminate Hrun].
    destruct (Further.converted timeto) as [hi|e]; [|discriminate Hrun].
    cbn [bind] in Hrun. injection Hrun as <- _.
    specialize (Hm T eq_refl). unfold rectangular in *.
    unfold Further.kept. simpl.
    rewrite Forall_forall in *. intros r Hr. apply filter_In in Hr.
    now apply Hm.
  - exfalso. revert Hrun. unfold apply_time_filters.
    destruct timefrom as [lo|], timeto as [hi|]; simpl;
      try destruct (lo =? 0)%Z; try destruct (hi =? 0)%Z; discriminate.
Qed.

Lemma three_sheets_rectangular : Forall sheet_rectangular (firstn 2 three_sheets).
Proof. repeat constructor. Qed.

Lemma loaded_table_is_rectangular_witness :
  Forall sheet_rectangular (firstn 2 three_sheets)
  /\ run_load_filter parse three_sheets (Some 1500%Z) None
     = Ok (Some {| columns := ["A_temp"; "A_pressure"; "B_temp"];
                   rows := [(Some 2000%Z, [Number 20; Number 200; Number 7]);
                            (Some 3000%Z, [Null; Null; Number 9])] |},
           [RowsAfterTimeFilter 2])
  /\ rectangular {| columns := ["A_temp"; "A_pressure"; "B_temp"];
                    rows := [(Some 2000%Z, [Number 20; Number 200; Number 7]);
                             (Some 3000%Z, [Null; Null; Number 9])] |}.
Proof.
  split; [exact three_sheets_rectangular|]. split; [reflexivity|].
  exact (loaded_table_is_rectangular parse three_sheets (Some 1500%Z) None _ _
           three_sheets_rectangular eq_refl).
Defined.

End ShapeFacts.

(* ================================================================== *)
(** ** Further properties: [interactive_menu] *)
(* ================================================================== *)

Section MenuFacts.
Import PyStr Frame Aggregator Spec Menu Further.

Lemma str_forall_app (p : ascii -> bool) (a b : string) :
  str_forall p (a ++ b) = str_forall p a && str_forall p b.
Proof.
  induction a as [|c a IH]; simpl; [reflexivity|].
  now rewrite IH, andb_assoc.
Qed.

Lemma split_aux_tokens (cur s : string) :
  str_forall (fun c => negb (is_space c)) cur = true ->
  Forall token (split_aux cur s).
Proof.
  revert cur. induction s as [|c s IH]; intros cur Hcur; simpl.
  - destruct cur; [constructor|]. constructor; [|constructor].
    split; [discriminate | exact Hcur].
  - destruct (is_space c) eqn:E.
    + destruct cur as [|a cur]; [now apply IH|].
      constructor; [split; [discriminate | exact Hcur] | now apply IH].
    + apply IH. rewrite str_forall_app, Hcur. simpl. now rewrite E.
Qed.

Lemma split_aux_nonempty (cur s : string) :
  cur <> EmptyString -> split_aux cur s <> [].
Proof.
  revert cur. induction s as [|c s IH]; intros cur Hcur; simpl.
  - destruct cur; [congruence | discriminate].
  - destruct (is_space c).
    + destruct cur; [congruence | discriminate].
    + apply IH. destruct cur; discriminate.
Qed.

Lemma lstrip_head (s : string) :
  lstrip s = EmptyString
  \/ exists c r, lstrip s = String c r /\ is_space c = false.
Proof.
  induction s as [|c s IH]; simpl; [now left|].
  destruct (is_space c) eqn:E; [exact IH | right; now exists c, s].
Qed.

Lemma rstrip_head (c : ascii) (r : string) :
  is_space c = false -> exists r', rstrip (String c r) = String c r'.
Proof.
  intros E. simpl. destruct (rstrip r) as [|a r'].
  - rewrite E. now exists EmptyString.
  - now exists (String a r').
Qed.

(** A stripped string is empty or begins with a character that is no
    white space. *)
Lemma strip_head (s : string) :
  strip s = EmptyString
  \/ exists c r, strip s = String c r /\ is_space c = false.
Proof.
  unfold strip. destruct (lstrip_head s) as [->|(c & r & -> & E)].
  - now left.
  - right. destruct (rstrip_head c r E) as [r' Hr]. now exists c, r'.
Qed.

Lemma split_strip_tokens (s : string) :
  truthy (strip s) = true ->
  split (strip s) <> [] /\ Forall token (split (strip s)).
Proof.
  intros Ht. split; [|now apply split_aux_tokens].
  destruct (strip_head s) as [E|(c & r & E & Hc)].
  - rewrite E in Ht. discriminate.
  - rewrite E. unfold split. cbn [split_aux]. rewrite Hc.
    apply split_aux_nonempty. discriminate.
Qed.

Lemma optional_int_blank (s : string) :
  truthy s = false -> optional_int s = Ok None.
Proof. intros H. unfold optional_int. now rewrite H. Qed.

(** X18. Whatever is typed, the parameters [interactive_menu] returns
    hold at least one statistic, every statistic and every column being
    a non-empty word without white space; the columns are either absent
    or a list with at least one name, never the empty list; the path and
    the interval are the answers without the white space around them;
    plotting is on exactly when the last answer, trimmed and in lower
    case, is ["y"]; and a time bound is absent exactly when its answer
    is blank.  When both answers for the time bounds are blank the menu
    does not raise. *)
Theorem interactive_menu_parameters (a : Answers) :
  (forall p, interactive_menu a = Ok p ->
     stats p <> [] /\ Forall token (stats p)
     /\ (columns p = None
         \/ exists c cs, columns p = Some (c :: cs) /\ Forall token (c :: cs))
     /\ file_path p = strip (ans_file_path a)
     /\ group_by p = strip (ans_group_by a)
     /\ (plot p = true <-> lower (strip (ans_plot a)) = "y")
     /\ (timefrom p = None <-> strip (ans_timefrom a) = EmptyString)
     /\ (timeto p = None <-> strip (ans_timeto a) = EmptyString))
  /\ (strip (ans_timefrom a) = EmptyString ->
      strip (ans_timeto a) = EmptyString ->
      exists p, interactive_menu a = Ok p).
Proof.
  split.
  - intros p. unfold interactive_menu.
    destruct (optional_int (strip (ans_timefrom a))) as [tf|e] eqn:Ef;
      [|discriminate].
    destruct (optional_int (strip (ans_timeto a))) as [tt|e] eqn:Et;
      [|discriminate].
    simpl. intros [= <-]. simpl.
    assert (Hopt : forall s o, optional_int s = Ok o ->
                     (o = None <-> s = EmptyString)).
    { intros s o. unfold optional_int. destruct s as [|c s]; simpl.
      - intros [= <-]. tauto.
      - destruct (int (String c s)); simpl; [|discriminate].
        intros [= <-]. split; discriminate. }
    repeat split.
    + destruct (truthy (strip (ans_stats a))) eqn:E; [|discriminate].
      now apply split_strip_tokens.
    + destruct (truthy (strip (ans_stats a))) eqn:E.
      * now apply split_strip_tokens.
      * constructor; [split; [discriminate | reflexivity] | constructor].
    + destruct (truthy (strip (ans_columns a))) eqn:E; [|now left].
      right. destruct (split_strip_tokens _ E) as [Hne Htok].
      destruct (split (strip (ans_columns a))) as [|c cs]; [congruence|].
      now exists c, cs.
    + apply String.eqb_eq.
    + apply String.eqb_eq.
    + apply (proj1 (Hopt _ _ Ef)).
    + apply (proj2 (Hopt _ _ Ef)).
    + apply (proj1 (Hopt _ _ Et)).
    + apply (proj2 (Hopt _ _ Et)).
  - intros Hf Ht. unfold interactive_menu. rewrite Hf, Ht. simpl.
    eexists. reflexivity.
Qed.

End MenuFacts.
